(** * doxdepends: the dependency grapher, embedded and verified

    A shallow embedding of [doxdepends.py].  The script reads the XML that
    Doxygen writes for a project ([index.xml] and one file per class or
    group), infers class-to-class dependencies and writes a Dot graph.

    Modelling choices, all taken from the script:

    - Python [dict]s keep insertion order and the script iterates over them
      ([_FindNestedClassGroups], [ReportCycles]), so a dict is an
      association list in insertion order ([Dict]).
    - A Python [set] has no specified iteration order (string hashing is
      seeded per process).  A set is a duplicate-free list and every
      function that iterates over one takes the iteration order as an
      argument [set_iter].
    - An XML file is the part of its element tree that the script queries.
      Attributes that Doxygen's schema marks as required are strings; the
      optional [refid] of a [basecompoundref] and the optional text of an
      element are [option string].
    - [KeyError] and [RecursionError] are the exceptions that the
      script's own lookups and recursion can raise once the XML is parsed;
      they are values of [Exn].  Errors of the output streams (a label that
      the encoding of the output file or of standard output cannot encode,
      an I/O error) are outside the model: a line handed to [_WriteLine] or
      to [print] is taken to be written.
    - The progress lines and the parse diagnostics printed by
      [_ParseXMLFile] are not part of the model; the cycle report and the
      output file are. *)

From Stdlib Require Import String Ascii List Bool Arith NArith Lia.
From Stdlib Require Import Permutation Sorted DecimalString.
Import ListNotations.

Local Open Scope string_scope.
Local Open Scope list_scope.

(** ** Python strings *)

Module PyStr.

(** [s.startswith(p)] *)
Definition startswith (s p : string) : bool := String.prefix p s.

(** [bool(s)]: the empty string is falsy. *)
Definition truthy (s : string) : bool :=
  match s with
  | EmptyString => false
  | String _ _ => true
  end.

(** [s.replace(old, new)] for a non-empty [old]: the occurrences of [old]
    are replaced from left to right, without overlap.  [skip] counts the
    characters of a matched occurrence that are still to be dropped. *)
Fixpoint replace_from (skip : nat) (old new s : string) : string :=
  match s with
  | EmptyString => EmptyString
  | String c s' =>
      match skip with
      | S k => replace_from k old new s'
      | O =>
          if String.prefix old s
          then new ++ replace_from (String.length old - 1) old new s'
          else String c (replace_from O old new s')
      end
  end.

Definition replace (s old new : string) : string := replace_from 0 old new s.

(** The part of [s] before its last [sep], when [sep] occurs in [s]. *)
Fixpoint before_last (sep : ascii) (s : string) : option string :=
  match s with
  | EmptyString => None
  | String c s' =>
      match before_last sep s' with
      | Some p => Some (String c p)
      | None => if Ascii.eqb c sep then Some EmptyString else None
      end
  end.

(** [s.rsplit(sep, 1)[0]] *)
Definition rsplit1_head (sep : ascii) (s : string) : string :=
  match before_last sep s with
  | Some p => p
  | None => s
  end.

(** ['%d' % n] for a natural number. *)
Definition of_nat (n : nat) : string :=
  NilEmpty.string_of_uint (Nat.to_uint n).

(** [sorted(l)] on strings: Python's sort is stable and compares strings
    lexicographically by code point, which on the bytes of UTF-8 is the
    order of [String.leb]; insertion sort places an element before the
    first one that is not smaller and so is stable as well. *)
Fixpoint insert (x : string) (l : list string) : list string :=
  match l with
  | [] => [x]
  | y :: l' => if String.leb x y then x :: l else y :: insert x l'
  end.

Fixpoint sorted (l : list string) : list string :=
  match l with
  | [] => []
  | x :: l' => insert x (sorted l')
  end.

(** The order that [sorted] sorts by. *)
Definition le (a b : string) : Prop := String.leb a b = true.

End PyStr.

(** ** Python dicts with string keys *)

Module Dict.

Definition t (V : Type) : Type := list (string * V).

Definition empty {V : Type} : t V := [].

(** [d.get(k)] *)
Fixpoint get {V : Type} (d : t V) (k : string) : option V :=
  match d with
  | [] => None
  | (k', v) :: d' => if String.eqb k' k then Some v else get d' k
  end.

(** [k in d] *)
Definition mem {V : Type} (d : t V) (k : string) : bool :=
  match get d k with
  | Some _ => true
  | None => false
  end.

(** [d[k] = v]: an existing key keeps its place, a new key goes last. *)
Fixpoint set {V : Type} (d : t V) (k : string) (v : V) : t V :=
  match d with
  | [] => [(k, v)]
  | (k', v') :: d' =>
      if String.eqb k' k then (k', v) :: d' else (k', v') :: set d' k v
  end.

(** [d.keys()] and [d.items()], in insertion order. *)
Definition keys {V : Type} (d : t V) : list string := map fst d.
Definition items {V : Type} (d : t V) : list (string * V) := d.

(** What every Python dict satisfies: a key occurs once. *)
Definition wf {V : Type} (d : t V) : Prop := NoDup (keys d).

End Dict.

(** ** Python sets of reference ids

    A [basecompoundref] without [refid] makes the script add [None] to a
    dependency set, so an element is an [option string]. *)

Module PySet.

Definition elt : Type := option string.

Definition elt_eqb (a b : elt) : bool :=
  match a, b with
  | Some x, Some y => String.eqb x y
  | None, None => true
  | _, _ => false
  end.

Definition t : Type := list elt.

Definition empty : t := [].

(** [x in s] *)
Definition mem (s : t) (x : elt) : bool := existsb (elt_eqb x) s.

(** [s.add(x)] *)
Definition add (s : t) (x : elt) : t := if mem s x then s else s ++ [x].

End PySet.

(** ** Exceptions *)

Inductive Exn : Type :=
| KeyError (key : string)
| RecursionError.

Inductive result (A : Type) : Type :=
| Ok (a : A)
| Raise (e : Exn).

Arguments Ok {A} a.
Arguments Raise {A} e.

Definition bind {A B : Type} (m : result A) (f : A -> result B) : result B :=
  match m with
  | Ok a => f a
  | Raise e => Raise e
  end.

Notation "x <- m ;; k" := (bind m (fun x => k))
  (at level 61, m at next level, right associativity).

(** [d[k]] *)
Definition subscript {V : Type} (d : Dict.t V) (k : string) : result V :=
  match Dict.get d k with
  | Some v => Ok v
  | None => Raise (KeyError k)
  end.

(** A [for] loop whose body may raise, threading the loop's state. *)
Fixpoint for_each {A S : Type} (l : list A) (body : S -> A -> result S)
    (s : S) : result S :=
  match l with
  | [] => Ok s
  | x :: l' => s' <- body s x ;; for_each l' body s'
  end.

(** ** The XML input *)

(** [<compound refid=... kind=...><name>...</name></compound>] of the index. *)
Record Compound : Type := mkCompound {
  compound_refid : string;
  compound_kind : string;
  compound_name : string
}.

(** [<basecompoundref refid=...>text</basecompoundref>] *)
Record BaseRef : Type := mkBaseRef {
  baseref_text : option string;
  baseref_refid : option string
}.

(** [<memberdef kind=...>]: [member_type] is the [refid] of its first
    [type/ref], [member_params] the one of each [param], and
    [member_referencedby] the [refid] of each [referencedby]. *)
Record MemberDef : Type := mkMemberDef {
  member_kind : string;
  member_type : option string;
  member_params : list (option string);
  member_referencedby : list string
}.

(** The file of a class or a group: [compounddef/basecompoundref],
    [compounddef/innerclass] and [compounddef/sectiondef/memberdef]. *)
Record CompoundFile : Type := mkCompoundFile {
  basecompoundrefs : list BaseRef;
  innerclasses : list string;
  memberdefs : list MemberDef
}.

(** The XML directory: a file that is missing or does not parse is [None]. *)
Record XmlDirectory : Type := mkXmlDirectory {
  index_xml : option (list Compound);
  compound_xml : string -> option CompoundFile
}.

(** ** The grapher *)

Record Grapher : Type := mkGrapher {
  _target_namespace : option string;
  _ref_dict : Dict.t string;
  _dep_dict : Dict.t PySet.t;
  _nested_dict : Dict.t string;
  _group_dict : Dict.t string
}.

(** [Grapher.__init__] followed by the assignments of [ProcessXML]. *)
Definition new_Grapher (target_namespace : option string) : Grapher :=
  mkGrapher target_namespace Dict.empty Dict.empty Dict.empty Dict.empty.

Definition with_ref_dict (g : Grapher) (d : Dict.t string) : Grapher :=
  mkGrapher (_target_namespace g) d (_dep_dict g) (_nested_dict g)
    (_group_dict g).

Definition with_dep_dict (g : Grapher) (d : Dict.t PySet.t) : Grapher :=
  mkGrapher (_target_namespace g) (_ref_dict g) d (_nested_dict g)
    (_group_dict g).

Definition with_nested_dict (g : Grapher) (d : Dict.t string) : Grapher :=
  mkGrapher (_target_namespace g) (_ref_dict g) (_dep_dict g) d
    (_group_dict g).

Definition with_group_dict (g : Grapher) (d : Dict.t string) : Grapher :=
  mkGrapher (_target_namespace g) (_ref_dict g) (_dep_dict g)
    (_nested_dict g) d.

Definition _IncludeName (ns : option string) (name : string) : bool :=
  match ns with
  | None => true
  | Some n =>
      PyStr.startswith name (n ++ "::") || PyStr.startswith name (n ++ ".")
  end.

Definition _GetShortName (ns : option string) (full_name : string) : string :=
  match ns with
  | Some n =>
      if PyStr.startswith full_name (n ++ "::")
      then PyStr.replace full_name (n ++ "::") ""
      else full_name
  | None => full_name
  end.

(** [_AddDependency] on the dependency dict alone.  The second statement
    adds to the set object that the first one stored under [from_refid]. *)
Definition add_dependency (d : Dict.t PySet.t) (from_refid : string)
    (to_refid : PySet.elt) : Dict.t PySet.t :=
  if PySet.elt_eqb (Some from_refid) to_refid then d
  else
    let s :=
      match Dict.get d from_refid with
      | Some s => s
      | None => PySet.empty
      end in
    Dict.set (Dict.set d from_refid s) from_refid (PySet.add s to_refid).

Definition _AddDependency (g : Grapher) (from_refid : string)
    (to_refid : PySet.elt) : Grapher :=
  with_dep_dict g (add_dependency (_dep_dict g) from_refid to_refid).

(** ** Reading the XML *)

(** [_ProcessGroupFile]: the classes of the group go to [_group_dict]. *)
Definition _ProcessGroupFile (dir : XmlDirectory) (g : Grapher)
    (refid : string) : Grapher :=
  match compound_xml dir refid with
  | None => g
  | Some root =>
      fold_left
        (fun g innerclass =>
           with_group_dict g (Dict.set (_group_dict g) innerclass refid))
        (innerclasses root) g
  end.

(** [_ProcessClassFunction]: parameter types, then the callers. *)
Definition _ProcessClassFunction (g : Grapher) (class_refid : string)
    (func : MemberDef) : Grapher :=
  let g1 :=
    fold_left
      (fun g param =>
         match param with
         | Some refid =>
             if PyStr.truthy refid
             then _AddDependency g class_refid (Some refid)
             else g
         | None => g
         end)
      (member_params func) g in
  fold_left
    (fun g by_func_refid =>
       let by_class_refid := PyStr.rsplit1_head "_" by_func_refid in
       _AddDependency g by_class_refid (Some class_refid))
    (member_referencedby func) g1.

Definition _ProcessClassMember (g : Grapher) (class_refid : string)
    (member : MemberDef) : Grapher :=
  let kind := member_kind member in
  let refid := member_type member in
  if String.eqb kind "variable" then
    match refid with
    | Some r => _AddDependency g class_refid (Some r)
    | None => g
    end
  else if String.eqb kind "function" then
    let g1 :=
      match refid with
      | Some r => _AddDependency g class_refid (Some r)
      | None => g
      end in
    _ProcessClassFunction g1 class_refid member
  else g.

(** [_ProcessClassFile]: base classes, nested classes, members. *)
Definition _ProcessClassFile (dir : XmlDirectory) (g : Grapher)
    (refid : string) : Grapher :=
  match compound_xml dir refid with
  | None => g
  | Some root =>
      let g1 :=
        fold_left
          (fun g baseref =>
             match baseref_text baseref with
             | Some name =>
                 if _IncludeName (_target_namespace g) name
                 then _AddDependency g refid (baseref_refid baseref)
                 else g
             | None => g
             end)
          (basecompoundrefs root) g in
      let g2 :=
        fold_left
          (fun g inner_refid =>
             let g' := _AddDependency g refid (Some inner_refid) in
             with_nested_dict g' (Dict.set (_nested_dict g') inner_refid refid))
          (innerclasses root) g1 in
      fold_left (fun g member => _ProcessClassMember g refid member)
        (memberdefs root) g2
  end.

Definition class_like_or_group (kind : string) : bool :=
  existsb (String.eqb kind) ["class"; "struct"; "interface"; "group"].

Definition _ProcessIndexFile (dir : XmlDirectory) (g : Grapher) : Grapher :=
  match index_xml dir with
  | None => g
  | Some root =>
      fold_left
        (fun g compound =>
           let refid := compound_refid compound in
           let kind := compound_kind compound in
           let name := compound_name compound in
           if class_like_or_group kind then
             let g1 := with_ref_dict g (Dict.set (_ref_dict g) refid name) in
             if String.eqb kind "group" then _ProcessGroupFile dir g1 refid
             else if _IncludeName (_target_namespace g1) name
                  then _ProcessClassFile dir g1 refid
                  else g1
           else g)
        root g
  end.

Definition ProcessXML (dir : XmlDirectory) (target_namespace : option string)
    : Grapher :=
  _ProcessIndexFile dir (new_Grapher target_namespace).

(** ** Group propagation *)

(** The inner function [_GetGroup] of [_FindNestedClassGroups].  Python
    bounds the depth of the recursion; [depth] is the number of calls that
    are still allowed. *)
Fixpoint _GetGroup (depth : nat) (group_dict nested_dict : Dict.t string)
    (refid : option string) : result (option string) :=
  match depth with
  | O => Raise RecursionError
  | S depth' =>
      match refid with
      | None => Ok None
      | Some r =>
          match Dict.get group_dict r with
          | Some grp =>
              if PyStr.truthy grp then Ok (Some grp)
              else _GetGroup depth' group_dict nested_dict
                     (Dict.get nested_dict r)
          | None =>
              _GetGroup depth' group_dict nested_dict (Dict.get nested_dict r)
          end
      end
  end.

(** The body of the loop of [_FindNestedClassGroups]. *)
Definition propagate_item (depth : nat) (nested_dict : Dict.t string)
    (group_dict : Dict.t string) (item : string * string)
    : result (Dict.t string) :=
  let '(inner_refid, outer_refid) := item in
  group_refid <- _GetGroup depth group_dict nested_dict (Some outer_refid) ;;
  match group_refid with
  | Some grp => Ok (Dict.set group_dict inner_refid grp)
  | None => Ok group_dict
  end.

(** [_FindNestedClassGroups] on the two dicts it uses: one pass over the
    items of [_nested_dict], writing to [_group_dict] as it goes. *)
Definition propagate_groups (depth : nat) (nested_dict : Dict.t string)
    (group_dict : Dict.t string) : result (Dict.t string) :=
  for_each (Dict.items nested_dict) (propagate_item depth nested_dict)
    group_dict.

Definition _FindNestedClassGroups (depth : nat) (g : Grapher)
    : result Grapher :=
  gd <- propagate_groups depth (_nested_dict g) (_group_dict g) ;;
  Ok (with_group_dict g gd).

(** ** Assembling the graph *)

Module Writer.

Record Class : Type := mkClass {
  class_label : string;
  class_url_ref : string
}.

Record Group : Type := mkGroup {
  group_label : string;
  member_classes : list Class
}.

Record Dependencies : Type := mkDependencies {
  dep_label : string;
  dependency_labels : list string
}.

End Writer.

Definition _GetSubgraphDict (g : Grapher) : Dict.t (list string) :=
  fold_left
    (fun sd '(k, v) =>
       let members :=
         match Dict.get sd v with
         | Some l => l
         | None => []
         end in
       Dict.set (Dict.set sd v members) v (members ++ [k]))
    (Dict.items (_group_dict g)) Dict.empty.

Definition _CollectGroups (g : Grapher) (subgraph_dict : Dict.t (list string))
    : result (list Writer.Group) :=
  for_each (PyStr.sorted (Dict.keys subgraph_dict))
    (fun groups group =>
       group_name <- subscript (_ref_dict g) group ;;
       members <- subscript subgraph_dict group ;;
       member_classes <-
         for_each (PyStr.sorted members)
           (fun mc member =>
              name <- subscript (_ref_dict g) member ;;
              if _IncludeName (_target_namespace g) name
              then Ok (mc ++ [Writer.mkClass
                                (_GetShortName (_target_namespace g) name)
                                name])
              else Ok mc)
           [] ;;
       Ok (groups ++ [Writer.mkGroup group_name member_classes]))
    [].

Definition _CollectUngroupedClasses (g : Grapher)
    (subgraph_dict : Dict.t (list string)) : result (list Writer.Class) :=
  for_each (PyStr.sorted (Dict.keys (_ref_dict g)))
    (fun classes refid =>
       if Dict.mem subgraph_dict refid then Ok classes
       else
         name <- subscript (_ref_dict g) refid ;;
         if _IncludeName (_target_namespace g) name
         then Ok (classes ++ [Writer.mkClass
                                (_GetShortName (_target_namespace g) name)
                                name])
         else Ok classes)
    [].

(** One element of the comprehension
    [[self._GetShortName(self._ref_dict[dep]) for dep in ... if dep in
    self._ref_dict]]: the guard makes the subscript succeed, and [None] is
    the key of no entry. *)
Definition registered_short_name (g : Grapher) (dep : PySet.elt)
    : list string :=
  match dep with
  | Some d =>
      match Dict.get (_ref_dict g) d with
      | Some name => [_GetShortName (_target_namespace g) name]
      | None => []
      end
  | None => []
  end.

Section SetIteration.

(** The order in which this run of the interpreter iterates over a set. *)
Variable set_iter : PySet.t -> list PySet.elt.

Definition _CollectDependencies (g : Grapher)
    : result (list Writer.Dependencies) :=
  for_each (PyStr.sorted (Dict.keys (_dep_dict g)))
    (fun dependencies refid =>
       full_name <- subscript (_ref_dict g) refid ;;
       let name := _GetShortName (_target_namespace g) full_name in
       targets <- subscript (_dep_dict g) refid ;;
       let deps := flat_map (registered_short_name g) (set_iter targets) in
       Ok (dependencies ++ [Writer.mkDependencies name (PyStr.sorted deps)]))
    [].

(** The test of [ReportCycles]:
    [dep in self._dep_dict and key in self._dep_dict[dep]]. *)
Definition depends_back (g : Grapher) (key : string) (dep : PySet.elt)
    : bool :=
  match dep with
  | Some d =>
      match Dict.get (_dep_dict g) d with
      | Some s => PySet.mem s (Some key)
      | None => false
      end
  | None => false
  end.

(** The line that [ReportCycles] prints; the two subscripts are evaluated
    from left to right. *)
Definition cycle_line (g : Grapher) (key dep : string) : result string :=
  key_name <- subscript (_ref_dict g) key ;;
  dep_name <- subscript (_ref_dict g) dep ;;
  Ok ("*** Cycle between " ++ key_name ++ " and " ++ dep_name)%string.

(** The inner loop of [ReportCycles]: the lines printed so far, and the
    exception that ended the loop, if any. *)
Fixpoint report_deps (g : Grapher) (key : string) (deps : list PySet.elt)
    (out : list string) : list string * option Exn :=
  match deps with
  | [] => (out, None)
  | None :: deps' => report_deps g key deps' out
  | Some dep :: deps' =>
      if depends_back g key (Some dep) then
        match cycle_line g key dep with
        | Ok line => report_deps g key deps' (out ++ [line])
        | Raise e => (out, Some e)
        end
      else report_deps g key deps' out
  end.

Fixpoint report_items (g : Grapher) (items : list (string * PySet.t))
    (out : list string) : list string * option Exn :=
  match items with
  | [] => (out, None)
  | (key, value) :: items' =>
      match report_deps g key (set_iter value) out with
      | (out', None) => report_items g items' out'
      | aborted => aborted
      end
  end.

Definition ReportCycles (g : Grapher) : list string * option Exn :=
  report_items g (Dict.items (_dep_dict g)) [].

End SetIteration.

(** ** Writing the graph *)

Definition dquote : string := String (ascii_of_nat 34) EmptyString.
Definition newline : string := String (ascii_of_nat 10) EmptyString.

(** ['"%s"' % s] *)
Definition quoted (s : string) : string := (dquote ++ s ++ dquote)%string.

Definition _WriteGraphHeader : list string :=
  [ "digraph dependencies {";
    (" rankdir=" ++ quoted "LR" ++ ";")%string;
    " concentrate=true;";
    (" node [shape=record, fontname=Verdana," ++
       " fontsize=10, margin=.1, width=.2, height=.2];")%string ].

Definition _WriteGraphFooter : list string := [ "}" ].

Definition _WriteClass (classs : Writer.Class) (extra_indent : string)
    : list string :=
  [ (extra_indent ++ " " ++ quoted (Writer.class_label classs) ++
       " [URL=" ++ quoted ("\ref " ++ Writer.class_url_ref classs) ++
       ", fontcolor=blue];")%string ].

Definition _WriteGroup (group : Writer.Group) (index : nat) : list string :=
  [ (" subgraph cluster_" ++ PyStr.of_nat index ++ " {")%string;
    ("   label     = " ++ quoted (Writer.group_label group) ++ ";")%string;
    "   labeljust = r;";
    "   color     = darkorange;";
    "   fontcolor = darkorange;";
    "   fontsize  = 12;";
    ("   fontname  = " ++ quoted "Verdana" ++ ";")%string;
    "   penwidth  = 2;" ] ++
  flat_map (fun member => _WriteClass member "  ")
    (Writer.member_classes group) ++
  [ " }" ].

Definition _WriteDependencies (dep : Writer.Dependencies) : list string :=
  let dep_string :=
    String.concat " " (map quoted (Writer.dependency_labels dep)) in
  [ (" " ++ quoted (Writer.dep_label dep) ++ " -> { " ++ dep_string ++
       " };")%string ].

(** [enumerate(l)], counting from [i]. *)
Fixpoint enumerate_from {A : Type} (i : nat) (l : list A) : list (nat * A) :=
  match l with
  | [] => []
  | x :: l' => (i, x) :: enumerate_from (S i) l'
  end.

(** The lines that [Writer.Write] hands to [_WriteLine], in order. *)
Definition Write_lines (groups : list Writer.Group)
    (ungrouped_classes : list Writer.Class)
    (dependencies : list Writer.Dependencies) : list string :=
  _WriteGraphHeader ++
  flat_map (fun '(i, group) => _WriteGroup group i)
    (enumerate_from 0 groups) ++
  flat_map (fun uclass => _WriteClass uclass "") ungrouped_classes ++
  flat_map _WriteDependencies dependencies ++
  _WriteGraphFooter.

(** [_WriteLine] writes the line and a newline. *)
Definition file_text (lines : list string) : string :=
  String.concat "" (map (fun line => (line ++ newline)%string) lines).

(** The graph handed to the writer. *)
Record GraphView : Type := mkGraphView {
  view_groups : list Writer.Group;
  view_ungrouped_classes : list Writer.Class;
  view_dependencies : list Writer.Dependencies
}.

Section Run.

Variable set_iter : PySet.t -> list PySet.elt.

(** The recursion depth left to [_GetGroup]. *)
Variable depth : nat.

(** Whether [open(output_file, 'w')] succeeds. *)
Variable can_open : bool.

(** The first half of [OutputDotGraph]: everything before the writer. *)
Definition assemble (g : Grapher) : result GraphView :=
  g1 <- _FindNestedClassGroups depth g ;;
  let subgraph_dict := _GetSubgraphDict g1 in
  groups <- _CollectGroups g1 subgraph_dict ;;
  ungrouped_classes <- _CollectUngroupedClasses g1 subgraph_dict ;;
  dependencies <- _CollectDependencies set_iter g1 ;;
  Ok (mkGraphView groups ungrouped_classes dependencies).

(** [OutputDotGraph]: the text of the output file, or [None] when the
    file could not be opened.  The text is the one [Writer.Write] leaves
    when every [_WriteLine] succeeds, that is when the encoding of the
    output file can encode every label and the stream takes every line;
    a [UnicodeEncodeError] or an I/O error raised by [_WriteLine] part-way,
    and the partial file it leaves, are not modelled: after the file is
    opened the model cannot raise. *)
Definition OutputDotGraph (g : Grapher) : result (option string) :=
  view <- assemble g ;;
  if can_open
  then Ok (Some (file_text (Write_lines (view_groups view)
                              (view_ungrouped_classes view)
                              (view_dependencies view))))
  else Ok None.

(** What a run leaves behind: the cycle report on standard output, the
    exception that ended it if there was one, and the output file. *)
Record Outcome : Type := mkOutcome {
  cycle_report : list string;
  raised : option Exn;
  output_file : option string
}.

Definition main (report_cycles : bool) (target_namespace : option string)
    (xml_directory : XmlDirectory) : Outcome :=
  let grapher := ProcessXML xml_directory target_namespace in
  let '(report, exn) :=
    if report_cycles then ReportCycles set_iter grapher else ([], None) in
  match exn with
  | Some e => mkOutcome report (Some e) None
  | None =>
      match OutputDotGraph grapher with
      | Ok file => mkOutcome report None file
      | Raise e => mkOutcome report (Some e) None
      end
  end.

End Run.

(** ** Definitions used to state the properties *)

(** A sequence of calls of [_AddDependency]. *)
Definition add_dependencies (g : Grapher)
    (ops : list (string * PySet.elt)) : Grapher :=
  fold_left (fun g '(from_refid, to_refid) =>
               _AddDependency g from_refid to_refid) ops g.

(** The recorded edges, one pair for each element of each target set. *)
Definition edges (d : Dict.t PySet.t) : list (string * PySet.elt) :=
  flat_map (fun '(k, s) => map (pair k) s) d.

(** [old in s]: [old] occurs somewhere in [s]. *)
Fixpoint contains (old s : string) : bool :=
  String.prefix old s ||
  match s with
  | EmptyString => false
  | String _ s' => contains old s'
  end.

(** [s] without its first [n] characters, [s[n:]]. *)
Fixpoint drop (n : nat) (s : string) : string :=
  match n, s with
  | S n', String _ s' => drop n' s'
  | _, _ => s
  end.

(** The short-name transform in the words of the specification: the prefix
    [target_namespace + separator] is stripped once, for either separator,
    and any other name is returned unchanged. *)
Definition short_name_spec (ns : option string) (full_name : string)
    : string :=
  match ns with
  | None => full_name
  | Some n =>
      if PyStr.startswith full_name (n ++ "::")
      then drop (String.length (n ++ "::")) full_name
      else if PyStr.startswith full_name (n ++ ".")
           then drop (String.length (n ++ ".")) full_name
           else full_name
  end.

(** ** Example XML directories *)

(** An XML directory given by the list of its compound files. *)
Definition directory (index : option (list Compound))
    (files : list (string * CompoundFile)) : XmlDirectory :=
  mkXmlDirectory index (Dict.get files).

(** The order of iteration that follows the order of insertion. *)
Definition insertion_order (s : PySet.t) : list PySet.elt := s.

(** A directory without a readable [index.xml]. *)
Definition no_index_dir : XmlDirectory := directory None [].

(** The graph without nodes and edges. *)
Definition empty_graph : string :=
  file_text (_WriteGraphHeader ++ _WriteGraphFooter).

(** [Proj::Widget] has a member variable of type [Other::Gadget]. *)
Definition widget_dir : XmlDirectory :=
  directory
    (Some [ mkCompound "classProj_1_1Widget" "class" "Proj::Widget";
            mkCompound "classOther_1_1Gadget" "class" "Other::Gadget" ])
    [ ("classProj_1_1Widget",
       mkCompoundFile [] []
         [ mkMemberDef "variable" (Some "classOther_1_1Gadget") [] [] ]);
      ("classOther_1_1Gadget", mkCompoundFile [] [] []) ].

(** Class [Outer] is in group [G] and has the nested class [Inner]. *)
Definition outer_inner_dir : XmlDirectory :=
  directory
    (Some [ mkCompound "g1" "group" "G";
            mkCompound "k1" "class" "Outer";
            mkCompound "k2" "class" "Inner" ])
    [ ("g1", mkCompoundFile [] ["k1"] []);
      ("k1", mkCompoundFile [] ["k2"] []);
      ("k2", mkCompoundFile [] [] []) ].

(** A method of class [Foo] is called by a function of namespace [util];
    a namespace is not among the compounds that the index pass registers. *)
Definition caller_dir : XmlDirectory :=
  directory
    (Some [ mkCompound "classFoo" "class" "Foo";
            mkCompound "namespaceutil" "namespace" "util" ])
    [ ("classFoo",
       mkCompoundFile [] []
         [ mkMemberDef "function" None [] ["namespaceutil_1a2b3c"] ]) ].

(** Class [Foo] has a member variable whose type is the union [U], and a
    method of [Foo] is called by a member function of [U]; a union is not
    among the compounds that the index pass registers. *)
Definition union_dir : XmlDirectory :=
  directory
    (Some [ mkCompound "classFoo" "class" "Foo";
            mkCompound "unionU" "union" "U" ])
    [ ("classFoo",
       mkCompoundFile [] []
         [ mkMemberDef "variable" (Some "unionU") [] [];
           mkMemberDef "function" None [] ["unionU_1a2b3c"] ]) ].

(** Whether the body of the inner loop of [ReportCycles] runs to its end
    for [dep]: it raises when the test holds and a name is missing. *)
Definition line_ok (g : Grapher) (key : string) (dep : PySet.elt) : bool :=
  match dep with
  | None => true
  | Some d =>
      if depends_back g key (Some d)
      then match cycle_line g key d with
           | Ok _ => true
           | Raise _ => false
           end
      else true
  end.

(** An order of iteration lists the elements of the set, each once. *)
Definition iteration_order (set_iter : PySet.t -> list PySet.elt) : Prop :=
  forall s, Permutation (set_iter s) s.

(** Class [Foo] has member variables of the types [Zed] and [Bar], in
    this order. *)
Definition two_types_dir : XmlDirectory :=
  directory
    (Some [ mkCompound "classFoo" "class" "Foo";
            mkCompound "classBar" "class" "Bar";
            mkCompound "classZed" "class" "Zed" ])
    [ ("classFoo",
       mkCompoundFile [] []
         [ mkMemberDef "variable" (Some "classZed") [] [];
           mkMemberDef "variable" (Some "classBar") [] [] ]);
      ("classBar", mkCompoundFile [] [] []);
      ("classZed", mkCompoundFile [] [] []) ].

(** [A] is in group [G1] and [A::B] in group [G2]; [A::B] is nested in [A]
    and [A::B::C] in [A::B]; the index lists [A::B] before [A]. *)
Definition two_groups_dir : XmlDirectory :=
  directory
    (Some [ mkCompound "g1" "group" "G1";
            mkCompound "g2" "group" "G2";
            mkCompound "kB" "class" "A::B";
            mkCompound "kA" "class" "A";
            mkCompound "kC" "class" "A::B::C" ])
    [ ("g1", mkCompoundFile [] ["kA"] []);
      ("g2", mkCompoundFile [] ["kB"] []);
      ("kA", mkCompoundFile [] ["kB"] []);
      ("kB", mkCompoundFile [] ["kC"] []);
      ("kC", mkCompoundFile [] [] []) ].

(** ** Groups along the nesting relation *)

(** The group that [_GetGroup] takes from [_group_dict] for [refid]: the
    entry, unless it is missing or falsy. *)
Definition direct_group (group_dict : Dict.t string) (refid : string)
    : option string :=
  match Dict.get group_dict refid with
  | Some grp => if PyStr.truthy grp then Some grp else None
  | None => None
  end.

(** [resolves gd nd refid res]: the walk of [_GetGroup] from [refid] up the
    nesting relation ends, with [res]. *)
Inductive resolves (gd nd : Dict.t string)
    : option string -> option string -> Prop :=
| resolves_end : resolves gd nd None None
| resolves_here (r grp : string) :
    direct_group gd r = Some grp -> resolves gd nd (Some r) (Some grp)
| resolves_up (r : string) (res : option string) :
    direct_group gd r = None ->
    resolves gd nd (Dict.get nd r) res ->
    resolves gd nd (Some r) res.

(** The group of the outermost container with a group among [refid] and
    the entities that enclose it, looking at most [depth] entities up. *)
Fixpoint outermost_group (depth : nat) (gd nd : Dict.t string)
    (refid : option string) : option string :=
  match depth, refid with
  | S depth', Some r =>
      match outermost_group depth' gd nd (Dict.get nd r) with
      | Some grp => Some grp
      | None => direct_group gd r
      end
  | _, _ => None
  end.

(** [_GetGroup] returns for every enclosing entity of the nesting relation:
    the chains are no deeper than the recursion allows. *)
Definition depth_suffices (depth : nat) (gd nd : Dict.t string) : bool :=
  forallb
    (fun '(_, outer_refid) =>
       match _GetGroup depth gd nd (Some outer_refid) with
       | Ok _ => true
       | Raise _ => false
       end)
    (Dict.items nd).

(** The walk up the nesting relation from [refid] reaches an entity that
    is not nested within [depth] steps: [_GetGroup] comes to the end of the
    chain within [depth] calls whatever the groups are. *)
Fixpoint walk_ends (depth : nat) (nd : Dict.t string)
    (refid : option string) : bool :=
  match depth with
  | O => false
  | S depth' =>
      match refid with
      | None => true
      | Some r => walk_ends depth' nd (Dict.get nd r)
      end
  end.

(** Every enclosing chain of the nesting relation ends within [depth]
    steps.  Some number of steps does for every relation without cycle,
    and none for a relation in which an enclosing chain runs into a
    cycle. *)
Definition chains_end (depth : nat) (nd : Dict.t string) : bool :=
  forallb (fun '(_, outer_refid) => walk_ends depth nd (Some outer_refid))
    (Dict.items nd).

(** The nearest entity that is listed in a group among [refid] and the
    entities that enclose it. *)
Fixpoint nearest_grouped (depth : nat) (gd nd : Dict.t string)
    (refid : option string) : option string :=
  match depth, refid with
  | S depth', Some r =>
      match direct_group gd r with
      | Some _ => Some r
      | None => nearest_grouped depth' gd nd (Dict.get nd r)
      end
  | _, _ => None
  end.

(** The pass has no other group to give to [refid] than the one it is
    listed in: no entity that encloses [refid] is listed in a group, or the
    outermost one that is, is listed in the group of [refid] (or [refid] is
    listed in no group). *)
Definition keeps_own_group (depth : nat) (gd nd : Dict.t string)
    (refid : string) : bool :=
  match outermost_group depth gd nd (Dict.get nd refid),
        direct_group gd refid with
  | Some grp, Some own => String.eqb own grp
  | _, _ => true
  end.

(** The loop of [_FindNestedClassGroups] comes to [item] after the entries
    [before]: the nearest entity listed in a group up the chain of the
    enclosing entity keeps its own group, or its own entry is among
    [before], so that the pass has already given it the group it ends
    with. *)
Definition entry_ready (depth : nat) (gd nd : Dict.t string)
    (before : list (string * string)) (item : string * string) : bool :=
  let '(_, outer_refid) := item in
  match nearest_grouped depth gd nd (Some outer_refid) with
  | Some r => keeps_own_group depth gd nd r || Dict.mem before r
  | None => true
  end.

(** Every entry of [items] is ready when the loop comes to it, after
    [before] and the entries of [items] that precede it. *)
Fixpoint entries_ready (depth : nat) (gd nd : Dict.t string)
    (before items : list (string * string)) : bool :=
  match items with
  | [] => true
  | item :: items' =>
      entry_ready depth gd nd before item &&
      entries_ready depth gd nd (before ++ [item]) items'
  end.

(** In the order in which the loop visits the nesting relation, an entity
    that is listed in a group other than the outermost group of its chain
    comes, as a nested entity, before every entry whose enclosing chain
    meets it first. *)
Definition overridden_first (depth : nat) (gd nd : Dict.t string) : bool :=
  entries_ready depth gd nd [] (Dict.items nd).

(** The group entry of [refid] once the loop has visited the entries
    [before], starting from the group dict [gd0]. *)
Definition group_after (depth : nat) (gd0 nd : Dict.t string)
    (before : list (string * string)) (refid : string) : option string :=
  match Dict.get before refid with
  | Some outer_refid =>
      match outermost_group depth gd0 nd (Some outer_refid) with
      | Some grp => Some grp
      | None => direct_group gd0 refid
      end
  | None => direct_group gd0 refid
  end.

(** The nesting relation of [two_groups_dir] listed from the outside in,
    and its two groups. *)
Definition outside_in_nesting : Dict.t string :=
  [("kB", "kA"); ("kC", "kB")]%string.

Definition two_groups : Dict.t string := [("kA", "g1"); ("kB", "g2")]%string.

(** A nesting relation listed from the inside out, and the group of its
    outermost class. *)
Definition inside_out_nesting : Dict.t string :=
  [("kC", "kB"); ("kB", "kA")]%string.

Definition outermost_grouped : Dict.t string := [("kA", "g1")]%string.

(** Group [G] has no member. *)
Definition empty_group_dir : XmlDirectory :=
  directory
    (Some [ mkCompound "g1" "group" "G"; mkCompound "k1" "class" "Foo" ])
    [ ("g1", mkCompoundFile [] [] []);
      ("k1", mkCompoundFile [] [] []) ].

(** Both edges between [a] and [b] are recorded. *)
Definition two_cycle (g : Grapher) (a b : string) : Prop :=
  In (a, Some b) (edges (_dep_dict g)) /\
  In (b, Some a) (edges (_dep_dict g)).

(** What [_AddDependency] maintains: keys occur once, and the set of a key
    has no duplicate and does not contain the key. *)
Definition dep_inv (d : Dict.t PySet.t) : Prop :=
  Dict.wf d /\
  forall k s, In (k, s) d -> NoDup s /\ ~ In (Some k) s.

(** What the dicts of a grapher satisfy at every point of a run. *)
Definition grapher_inv (g : Grapher) : Prop :=
  dep_inv (_dep_dict g) /\
  Dict.wf (_ref_dict g) /\
  Dict.wf (_nested_dict g) /\
  Dict.wf (_group_dict g).

(** ** The rest of the grapher *)

(** [_GetDependencies]: the quoted short names of the registered
    dependencies of [refid], sorted and joined by spaces.  No other
    function of the script calls it. *)
Definition _GetDependencies (set_iter : PySet.t -> list PySet.elt)
    (g : Grapher) (refid : string) : result string :=
  targets <- subscript (_dep_dict g) refid ;;
  Ok (String.concat " "
        (PyStr.sorted
           (map quoted
              (flat_map (registered_short_name g) (set_iter targets))))).

(** The graphers that a run of [ProcessXML] can pass through: each
    constructor is one of the writes that the index, group and class passes
    make.  A group is registered before its file is read, and a class
    before its nested classes are recorded. *)
Inductive reachable : Grapher -> Prop :=
| reach_new (ns : option string) : reachable (new_Grapher ns)
| reach_register (g : Grapher) (refid name : string) :
    reachable g ->
    reachable (with_ref_dict g (Dict.set (_ref_dict g) refid name))
| reach_group (g : Grapher) (member group : string) :
    reachable g ->
    Dict.mem (_ref_dict g) group = true ->
    reachable (with_group_dict g (Dict.set (_group_dict g) member group))
| reach_edge (g : Grapher) (from_refid : string) (to_refid : PySet.elt) :
    reachable g ->
    reachable (_AddDependency g from_refid to_refid)
| reach_nested (g : Grapher) (inner outer : string) :
    reachable g ->
    Dict.mem (_ref_dict g) outer = true ->
    reachable
      (with_nested_dict (_AddDependency g outer (Some inner))
         (Dict.set (_nested_dict (_AddDependency g outer (Some inner)))
            inner outer)).

(** Two classes, each recorded as nested in the other. *)
Definition cyclic_nesting : Dict.t string := [("a", "b"); ("b", "a")]%string.

(** Classes [A] and [B] have a member variable of each other's type. *)
Definition mutual_dir : XmlDirectory :=
  directory
    (Some [ mkCompound "classA" "class" "A";
            mkCompound "classB" "class" "B" ])
    [ ("classA",
       mkCompoundFile [] [] [ mkMemberDef "variable" (Some "classB") [] [] ]);
      ("classB",
       mkCompoundFile [] [] [ mkMemberDef "variable" (Some "classA") [] [] ]) ].

(** Group [G] lists the union [U], which the index pass does not
    register. *)
Definition union_in_group_dir : XmlDirectory :=
  directory
    (Some [ mkCompound "g1" "group" "G"; mkCompound "unionU" "union" "U" ])
    [ ("g1", mkCompoundFile [] ["unionU"] []) ].

(** * Properties *)

(** ** Facts about dicts and sets *)

Module DictFacts.

Lemma get_set_same {V : Type} (d : Dict.t V) k v :
  Dict.get (Dict.set d k v) k = Some v.
Proof.
  induction d as [|[k' v'] d IH]; simpl.
  - now rewrite String.eqb_refl.
  - destruct (String.eqb k' k) eqn:E; simpl; rewrite E; auto.
Qed.

Lemma get_set_other {V : Type} (d : Dict.t V) k k' v :
  k <> k' -> Dict.get (Dict.set d k v) k' = Dict.get d k'.
Proof.
  intros Hne. induction d as [|[k0 v0] d IH]; simpl.
  - apply String.eqb_neq in Hne. now rewrite Hne.
  - destruct (String.eqb k0 k) eqn:E; simpl.
    + apply String.eqb_eq in E. subst k0.
      apply String.eqb_neq in Hne. now rewrite Hne.
    + destruct (String.eqb k0 k'); auto.
Qed.

Lemma get_set {V : Type} (d : Dict.t V) k k' v :
  Dict.get (Dict.set d k v) k' =
  if String.eqb k k' then Some v else Dict.get d k'.
Proof.
  destruct (String.eqb k k') eqn:E.
  - apply String.eqb_eq in E. subst. apply get_set_same.
  - apply String.eqb_neq in E. now apply get_set_other.
Qed.

Lemma set_set {V : Type} (d : Dict.t V) k v v' :
  Dict.set (Dict.set d k v) k v' = Dict.set d k v'.
Proof.
  induction d as [|[k0 v0] d IH]; simpl.
  - now rewrite String.eqb_refl.
  - destruct (String.eqb k0 k) eqn:E; simpl; rewrite E; congruence.
Qed.

(** Storing the value a key already has changes nothing. *)
Lemma set_same {V : Type} (d : Dict.t V) k v :
  Dict.get d k = Some v -> Dict.set d k v = d.
Proof.
  induction d as [|[k0 v0] d IH]; simpl; [discriminate|].
  destruct (String.eqb k0 k) eqn:E; intros H.
  - congruence.
  - now rewrite IH.
Qed.

Lemma get_In {V : Type} (d : Dict.t V) k v :
  Dict.get d k = Some v -> In (k, v) d.
Proof.
  induction d as [|[k0 v0] d IH]; simpl; [discriminate|].
  destruct (String.eqb k0 k) eqn:E; intros H.
  - apply String.eqb_eq in E. left. congruence.
  - right. auto.
Qed.

Lemma get_None {V : Type} (d : Dict.t V) k :
  Dict.get d k = None <-> ~ In k (Dict.keys d).
Proof.
  induction d as [|[k0 v0] d IH]; simpl.
  - tauto.
  - destruct (String.eqb k0 k) eqn:E.
    + apply String.eqb_eq in E. split; [discriminate | tauto].
    + apply String.eqb_neq in E. rewrite IH. tauto.
Qed.

Lemma In_get {V : Type} (d : Dict.t V) k v :
  Dict.wf d -> In (k, v) d -> Dict.get d k = Some v.
Proof.
  unfold Dict.wf.
  induction d as [|[k0 v0] d IH]; simpl; [tauto|].
  intros Hnd [Heq | Hin]; inversion Hnd as [|? ? Hnotin Hnd']; subst.
  - inversion Heq; subst. now rewrite String.eqb_refl.
  - destruct (String.eqb k0 k) eqn:E; auto.
    apply String.eqb_eq in E. subst k0.
    exfalso. apply Hnotin. change k with (fst (k, v)). now apply in_map.
Qed.

Lemma In_set {V : Type} (d : Dict.t V) k v k' v' :
  In (k', v') (Dict.set d k v) -> (k' = k /\ v' = v) \/ In (k', v') d.
Proof.
  induction d as [|[k0 v0] d IH]; simpl.
  - intros [H | []]. left. inversion H. auto.
  - destruct (String.eqb k0 k) eqn:E; simpl.
    + apply String.eqb_eq in E. subst k0.
      intros [H | H]; [left; inversion H; auto | auto].
    + intros [H | H]; [auto|]. destruct (IH H); auto.
Qed.

Lemma keys_set_present {V : Type} (d : Dict.t V) k v :
  In k (Dict.keys d) -> Dict.keys (Dict.set d k v) = Dict.keys d.
Proof.
  induction d as [|[k0 v0] d IH]; simpl; [tauto|].
  destruct (String.eqb k0 k) eqn:E; simpl; intros H.
  - reflexivity.
  - apply String.eqb_neq in E. f_equal. apply IH. tauto.
Qed.

Lemma keys_set_absent {V : Type} (d : Dict.t V) k v :
  ~ In k (Dict.keys d) -> Dict.keys (Dict.set d k v) = Dict.keys d ++ [k].
Proof.
  induction d as [|[k0 v0] d IH]; simpl; [reflexivity|].
  destruct (String.eqb k0 k) eqn:E; simpl; intros H.
  - apply String.eqb_eq in E. tauto.
  - f_equal. apply IH. tauto.
Qed.

Lemma wf_set {V : Type} (d : Dict.t V) k v :
  Dict.wf d -> Dict.wf (Dict.set d k v).
Proof.
  unfold Dict.wf. intros Hwf.
  destruct (in_dec string_dec k (Dict.keys d)) as [Hin | Hnotin].
  - now rewrite keys_set_present.
  - rewrite keys_set_absent by assumption.
    apply NoDup_app; auto.
    + constructor; [tauto | constructor].
    + intros x Hx [<- | []]. tauto.
Qed.

End DictFacts.

Module PySetFacts.

Lemma elt_eqb_eq (a b : PySet.elt) : PySet.elt_eqb a b = true <-> a = b.
Proof.
  destruct a, b; simpl; try (split; (discriminate || reflexivity)).
  rewrite String.eqb_eq. split; congruence.
Qed.

Lemma mem_In (s : PySet.t) (x : PySet.elt) :
  PySet.mem s x = true <-> In x s.
Proof.
  unfold PySet.mem. rewrite existsb_exists. split.
  - intros [y [Hy E]]. apply elt_eqb_eq in E. now subst.
  - intros H. exists x. split; [assumption | now apply elt_eqb_eq].
Qed.

Lemma mem_false (s : PySet.t) (x : PySet.elt) :
  PySet.mem s x = false <-> ~ In x s.
Proof.
  rewrite <- mem_In. destruct (PySet.mem s x); split; congruence.
Qed.

Lemma In_add (s : PySet.t) (x y : PySet.elt) :
  In y (PySet.add s x) <-> y = x \/ In y s.
Proof.
  unfold PySet.add. destruct (PySet.mem s x) eqn:E.
  - apply mem_In in E. split; [auto | intros [-> | H]; auto].
  - rewrite in_app_iff. simpl. intuition.
Qed.

Lemma NoDup_add (s : PySet.t) (x : PySet.elt) :
  NoDup s -> NoDup (PySet.add s x).
Proof.
  unfold PySet.add. intros Hs. destruct (PySet.mem s x) eqn:E; [assumption|].
  apply mem_false in E. apply NoDup_app; auto.
  - constructor; [tauto | constructor].
  - intros y Hy [<- | []]. tauto.
Qed.

End PySetFacts.

(** ** The dependency relation: no self-edge, no duplicate *)

Section DependencyInvariant.

Lemma dep_inv_empty : dep_inv Dict.empty.
Proof.
  split; [constructor | intros k s []].
Qed.

Lemma add_dependency_self (d : Dict.t PySet.t) (k : string) :
  add_dependency d k (Some k) = d.
Proof.
  unfold add_dependency. simpl. now rewrite String.eqb_refl.
Qed.

Lemma add_dependency_other (d : Dict.t PySet.t) k t :
  Some k <> t ->
  add_dependency d k t =
  Dict.set d k
    (PySet.add (match Dict.get d k with Some s => s | None => PySet.empty end)
       t).
Proof.
  intros Hne. unfold add_dependency.
  destruct (PySet.elt_eqb (Some k) t) eqn:E.
  - apply PySetFacts.elt_eqb_eq in E. contradiction.
  - apply DictFacts.set_set.
Qed.

Lemma dep_inv_add (d : Dict.t PySet.t) k t :
  dep_inv d -> dep_inv (add_dependency d k t).
Proof.
  intros [Hwf Hsets].
  destruct (PySet.elt_eqb (Some k) t) eqn:E.
  - apply PySetFacts.elt_eqb_eq in E. subst t.
    rewrite add_dependency_self. now split.
  - assert (Hne : Some k <> t).
    { intros H. apply PySetFacts.elt_eqb_eq in H. congruence. }
    rewrite add_dependency_other by assumption.
    split; [now apply DictFacts.wf_set|].
    intros k' s' Hin. apply DictFacts.In_set in Hin.
    destruct Hin as [[-> ->] | Hin]; [|now apply Hsets].
    assert (Hold : NoDup (match Dict.get d k with
                          | Some s => s | None => PySet.empty end) /\
                   ~ In (Some k) (match Dict.get d k with
                                  | Some s => s | None => PySet.empty end)).
    { destruct (Dict.get d k) as [s|] eqn:G.
      - apply Hsets. now apply DictFacts.get_In.
      - split; [constructor | intros []]. }
    destruct Hold as [Hnd Hself]. split.
    + now apply PySetFacts.NoDup_add.
    + rewrite PySetFacts.In_add. intros [H | H]; [congruence | tauto].
Qed.

Lemma dep_inv_add_dependencies ops : forall g,
  dep_inv (_dep_dict g) -> dep_inv (_dep_dict (add_dependencies g ops)).
Proof.
  induction ops as [|[f t] ops IH]; intros g Hg; simpl; [assumption|].
  apply IH. simpl. now apply dep_inv_add.
Qed.

Lemma In_edges (d : Dict.t PySet.t) k t :
  In (k, t) (edges d) <-> exists s, In (k, s) d /\ In t s.
Proof.
  unfold edges. rewrite in_flat_map. split.
  - intros [[k' s] [Hin Hmap]]. apply in_map_iff in Hmap.
    destruct Hmap as [t' [Heq Ht']]. inversion Heq; subst. eauto.
  - intros [s [Hin Ht]]. exists (k, s). split; [assumption|].
    now apply in_map.
Qed.

Lemma NoDup_map_pair (k : string) (s : PySet.t) :
  NoDup s -> NoDup (map (pair k) s).
Proof.
  induction 1 as [|t s Ht Hs IH]; simpl; constructor; [|assumption].
  intros H. apply in_map_iff in H. destruct H as [t' [Heq Ht']].
  inversion Heq; subst. contradiction.
Qed.

Lemma dep_inv_NoDup_edges (d : Dict.t PySet.t) :
  dep_inv d -> NoDup (edges d).
Proof.
  unfold dep_inv, Dict.wf. induction d as [|[k s] d IH]; simpl.
  - constructor.
  - intros [Hwf Hsets]. inversion Hwf as [|? ? Hk Hwf']; subst.
    apply NoDup_app.
    + apply NoDup_map_pair. apply (Hsets k s). now left.
    + apply IH. split; [assumption|]. intros k' s' H. apply Hsets. now right.
    + intros [k' t] H1 H2. apply in_map_iff in H1.
      destruct H1 as [t' [Heq _]]. inversion Heq; subst.
      apply In_edges in H2. destruct H2 as [s' [Hin _]].
      apply Hk. change k' with (fst (k', s')). now apply in_map.
Qed.

(** C9: whatever the sequence of calls of [_AddDependency] on a new
    grapher, no key of [_dep_dict] is in its own target set, every
    (source, target) pair is recorded once, and a call whose two
    arguments are equal returns the grapher unchanged. *)
Theorem add_dependency_no_self_edge_no_duplicate :
  forall (ns : option string) (ops : list (string * PySet.elt)),
    let g := add_dependencies (new_Grapher ns) ops in
    (forall k s, Dict.get (_dep_dict g) k = Some s -> ~ In (Some k) s) /\
    NoDup (Dict.keys (_dep_dict g)) /\
    NoDup (edges (_dep_dict g)) /\
    (forall k, _AddDependency g k (Some k) = g).
Proof.
  intros ns ops g.
  assert (Hinv : dep_inv (_dep_dict g)).
  { apply dep_inv_add_dependencies. apply dep_inv_empty. }
  repeat split.
  - intros k s Hget. apply (proj2 Hinv k s). now apply DictFacts.get_In.
  - exact (proj1 Hinv).
  - now apply dep_inv_NoDup_edges.
  - intros k. unfold _AddDependency. rewrite add_dependency_self.
    now destruct g.
Qed.

End DependencyInvariant.

(** ** The short-name transform *)

Section ShortName.

Local Open Scope string_scope.

Lemma prefix_append (p s : string) : String.prefix p (p ++ s) = true.
Proof.
  induction p as [|a p IH]; simpl.
  - now destruct s.
  - destruct (ascii_dec a a); [assumption | congruence].
Qed.

Lemma replace_from_skip (old new p s : string) :
  PyStr.replace_from (String.length p) old new (p ++ s) =
  PyStr.replace_from 0 old new s.
Proof.
  induction p as [|a p IH]; simpl; [|assumption].
  destruct s; reflexivity.
Qed.

Lemma replace_absent (old new s : string) :
  contains old s = false -> PyStr.replace s old new = s.
Proof.
  unfold PyStr.replace. induction s as [|c s IH]; [reflexivity|].
  intros H. apply orb_false_iff in H. destruct H as [Hp Hc].
  cbn [PyStr.replace_from]. rewrite Hp. f_equal. now apply IH.
Qed.

(** Where the name begins with [old], the first occurrence goes and the
    replacement goes on in what follows it. *)
Lemma replace_leading (old rest : string) :
  old <> "" ->
  PyStr.replace (old ++ rest) old "" = PyStr.replace rest old "".
Proof.
  destruct old as [|c old]; [congruence|]. intros _.
  unfold PyStr.replace.
  change (String c old ++ rest) with (String c (old ++ rest)).
  cbn [PyStr.replace_from].
  change (String c (old ++ rest)) with (String c old ++ rest).
  rewrite prefix_append.
  cbn [String.length append].
  replace (S (String.length old) - 1) with (String.length old) by lia.
  apply replace_from_skip.
Qed.

Lemma namespace_prefix_nonempty (n sep : string) :
  sep <> "" -> n ++ sep <> "".
Proof.
  destruct n; simpl; [tauto | discriminate].
Qed.

Lemma append_assoc (a b c : string) : (a ++ b) ++ c = a ++ b ++ c.
Proof.
  induction a as [|x a IH]; simpl; congruence.
Qed.

(** On a name that begins with [target_namespace + "::"], the transform
    removes every occurrence of that string, not the leading one alone. *)
Lemma _GetShortName_matching (n rest : string) :
  _GetShortName (Some n) ((n ++ "::") ++ rest) =
  PyStr.replace rest (n ++ "::") "".
Proof.
  unfold _GetShortName, PyStr.startswith.
  rewrite prefix_append. apply replace_leading.
  apply namespace_prefix_nonempty. discriminate.
Qed.

(** C4, as amended: with a target namespace [n], a name that begins with
    [n + "::"] and has no further occurrence of [n + "::"] loses exactly
    that prefix, and a name that does not begin with [n + "::"] is
    returned unchanged, one that begins with [n + "."] included; without
    a target namespace every name is returned unchanged. *)
Theorem short_name_strips_double_colon_prefix :
  forall (ns : option string) (full_name : string),
    match ns with
    | None => _GetShortName ns full_name = full_name
    | Some n =>
        (forall rest,
            full_name = (n ++ "::") ++ rest ->
            contains (n ++ "::") rest = false ->
            _GetShortName ns full_name = rest) /\
        (PyStr.startswith full_name (n ++ "::") = false ->
         _GetShortName ns full_name = full_name)
    end.
Proof.
  intros [n|] full_name; [split|reflexivity].
  - intros rest -> Habsent. rewrite _GetShortName_matching.
    now apply replace_absent.
  - intros Hprefix. unfold _GetShortName. now rewrite Hprefix.
Qed.

Lemma short_name_strips_double_colon_prefix_witness :
  _GetShortName (Some "Proj") "Proj::Widget" = "Widget" /\
  _GetShortName (Some "Proj") "Proj.Widget" = "Proj.Widget".
Proof.
  split.
  - apply (proj1 (short_name_strips_double_colon_prefix
                    (Some "Proj") "Proj::Widget") "Widget");
      reflexivity.
  - apply (proj2 (short_name_strips_double_colon_prefix
                    (Some "Proj") "Proj.Widget"));
      reflexivity.
Defined.

(** C4 fails as stated: a name with the dot separator keeps its prefix,
    and a name in which [target_namespace + "::"] occurs again loses
    every occurrence. *)
Lemma short_name_counterexample :
  _GetShortName (Some "Proj") "Proj.Widget" = "Proj.Widget" /\
  short_name_spec (Some "Proj") "Proj.Widget" = "Widget" /\
  _GetShortName (Some "Proj") "Proj::A<Proj::B>" = "A<B>" /\
  short_name_spec (Some "Proj") "Proj::A<Proj::B>" = "A<Proj::B>".
Proof.
  repeat split.
Qed.

End ShortName.

(** ** A run without a readable index *)

(** C1, as amended: when [index.xml] is missing or does not parse, nothing
    is registered and the run goes on to the end without an exception: the
    cycle report is empty and the output file, where it can be opened, is
    written and holds the graph without nodes and edges. *)
Theorem missing_index_writes_empty_graph :
  forall (set_iter : PySet.t -> list PySet.elt) (depth : nat)
         (can_open report_cycles : bool) (ns : option string)
         (files : string -> option CompoundFile),
    main set_iter depth can_open report_cycles ns (mkXmlDirectory None files)
    = mkOutcome [] None (if can_open then Some empty_graph else None).
Proof.
  intros set_iter depth can_open report_cycles ns files.
  unfold main, ProcessXML, _ProcessIndexFile. cbn [index_xml].
  destruct report_cycles, can_open; reflexivity.
Qed.

(** C1 fails as stated: without an index the run raises nothing and writes
    an output file. *)
Lemma missing_index_not_fatal :
  raised (main insertion_order 1000 true false None no_index_dir) = None /\
  output_file (main insertion_order 1000 true false None no_index_dir)
  = Some empty_graph /\
  output_file (main insertion_order 1000 true false None no_index_dir)
  <> None.
Proof.
  repeat split. discriminate.
Qed.

(** ** Entities outside the target namespace *)

(** C2 at its failing input: with target namespace [Proj], the class
    [Other::Gadget] fails the inclusion rule and has no node, yet it is the
    target of the edge statement written for [Widget]. *)
Theorem excluded_entity_is_edge_target :
  _IncludeName (Some "Proj"%string) "Other::Gadget" = false /\
  output_file (main insertion_order 1000 true false (Some "Proj"%string)
                 widget_dir)
  = Some (file_text
            (_WriteGraphHeader ++
             [ (" " ++ quoted "Widget" ++ " [URL=" ++
                quoted "\ref Proj::Widget" ++ ", fontcolor=blue];")%string;
               (" " ++ quoted "Widget" ++ " -> { " ++
                quoted "Other::Gadget" ++ " };")%string ] ++
             _WriteGraphFooter)).
Proof.
  split; reflexivity.
Qed.

(** ** Classes outside groups *)

(** C3 at its failing input: [Outer] and [Inner] are members of group [G]
    after propagation, and both are in the list of ungrouped classes. *)
Theorem group_members_listed_as_ungrouped :
  let g := ProcessXML outer_inner_dir None in
  propagate_groups 1000 (_nested_dict g) (_group_dict g)
  = Ok [("k1", "g1"); ("k2", "g1")]%string /\
  assemble insertion_order 1000 g
  = Ok (mkGraphView
          [ Writer.mkGroup "G"
              [ Writer.mkClass "Outer" "Outer";
                Writer.mkClass "Inner" "Inner" ] ]
          [ Writer.mkClass "Outer" "Outer"; Writer.mkClass "Inner" "Inner" ]
          [ Writer.mkDependencies "Outer" ["Inner"%string] ]).
Proof.
  split; reflexivity.
Qed.

(** A group without members is not a key of the reversed group dict, and
    is listed among the classes. *)
Lemma empty_group_listed_as_class :
  assemble insertion_order 1000 (ProcessXML empty_group_dir None)
  = Ok (mkGraphView []
          [ Writer.mkClass "G" "G"; Writer.mkClass "Foo" "Foo" ] []).
Proof.
  reflexivity.
Qed.

(** ** Callers that are not registered *)

(** C10: in [caller_dir] the [referencedby] key [namespaceutil_1a2b3c],
    cut at its last underscore, is [namespaceutil], which the index pass
    does not register; the call-reference rule records it as the source of
    an edge to [classFoo], and the run ends in [KeyError] when
    [_CollectDependencies] looks its name up: no output file is written. *)
Theorem unregistered_caller_raises_KeyError :
  let g := ProcessXML caller_dir None in
  PyStr.rsplit1_head "_" "namespaceutil_1a2b3c" = "namespaceutil"%string /\
  Dict.mem (_ref_dict g) "namespaceutil" = false /\
  In ("namespaceutil"%string, Some "classFoo"%string) (edges (_dep_dict g)) /\
  forall (depth : nat) (can_open report_cycles : bool),
    main insertion_order depth can_open report_cycles None caller_dir
    = mkOutcome [] (Some (KeyError "namespaceutil")) None.
Proof.
  repeat split.
  - simpl. auto.
  - intros depth can_open report_cycles.
    destruct report_cycles, can_open; reflexivity.
Qed.

(** ** The cycle report *)

(** C8 at its failing input: [classFoo] depends on [unionU] and [unionU]
    on [classFoo], and [ReportCycles] reports neither pair: it raises
    [KeyError] at the first one, as [unionU] has no registered name. *)
Theorem cycle_with_unregistered_entity_not_reported :
  let g := ProcessXML union_dir None in
  In ("classFoo"%string, Some "unionU"%string) (edges (_dep_dict g)) /\
  In ("unionU"%string, Some "classFoo"%string) (edges (_dep_dict g)) /\
  ReportCycles insertion_order g = ([], Some (KeyError "unionU")) /\
  main insertion_order 1000 true true None union_dir
  = mkOutcome [] (Some (KeyError "unionU")) None.
Proof.
  repeat split; simpl; auto.
Qed.

(** ** Sorting strings *)

Module SortedFacts.

Import PyStr.

Lemma ascii_compare_trans (x y z : ascii) (c : comparison) :
  Ascii.compare x y = c -> Ascii.compare y z = c -> Ascii.compare x z = c.
Proof.
  unfold Ascii.compare. intros H1 H2. destruct c.
  - apply N.compare_eq_iff in H1, H2. apply N.compare_eq_iff. congruence.
  - rewrite N.compare_lt_iff in *. now apply N.lt_trans with (N_of_ascii y).
  - rewrite N.compare_gt_iff in *. now apply N.lt_trans with (N_of_ascii y).
Qed.

Lemma le_trans (a b c : string) : le a b -> le b c -> le a c.
Proof.
  unfold le, String.leb. revert b c.
  induction a as [|x a IH]; intros b c.
  - destruct c; reflexivity.
  - destruct b as [|y b]; [discriminate|].
    destruct c as [|z c];
      [now destruct (String.compare (String x a) (String y b))|].
    simpl.
    destruct (Ascii.compare x y) eqn:Exy; try discriminate;
      destruct (Ascii.compare y z) eqn:Eyz; try discriminate.
    + rewrite (ascii_compare_trans x y z Eq Exy Eyz). apply IH.
    + apply Ascii.compare_eq_iff in Exy. subst y. now rewrite Eyz.
    + apply Ascii.compare_eq_iff in Eyz. subst z. now rewrite Exy.
    + now rewrite (ascii_compare_trans x y z Lt Exy Eyz).
Qed.

Lemma le_total (a b : string) : le a b \/ le b a.
Proof. apply String.leb_total. Qed.

Lemma le_antisym (a b : string) : le a b -> le b a -> a = b.
Proof. apply String.leb_antisym. Qed.

Lemma insert_perm (x : string) (l : list string) :
  Permutation (PyStr.insert x l) (x :: l).
Proof.
  induction l as [|y l IH]; simpl; [reflexivity|].
  destruct (String.leb x y); [reflexivity|].
  rewrite IH. apply perm_swap.
Qed.

Lemma sorted_perm (l : list string) : Permutation (PyStr.sorted l) l.
Proof.
  induction l as [|x l IH]; simpl; [reflexivity|].
  rewrite insert_perm. now constructor.
Qed.

Lemma In_sorted (l : list string) (x : string) :
  In x (PyStr.sorted l) <-> In x l.
Proof.
  split; apply Permutation_in; [|symmetry]; apply sorted_perm.
Qed.

Lemma insert_sorted (x : string) (l : list string) :
  StronglySorted le l -> StronglySorted le (PyStr.insert x l).
Proof.
  induction 1 as [|y l Hl IH Hy]; simpl.
  - repeat constructor.
  - destruct (String.leb x y) eqn:E.
    + constructor; [now constructor|].
      constructor; [exact E|].
      eapply Forall_impl; [|exact Hy].
      intros z Hz. now apply le_trans with y.
    + constructor; [assumption|].
      apply Permutation_Forall with (x :: l).
      * symmetry. apply insert_perm.
      * constructor; [|assumption].
        destruct (le_total x y) as [H | H]; [unfold le in H; congruence|].
        exact H.
Qed.

Lemma sorted_sorted (l : list string) : StronglySorted le (PyStr.sorted l).
Proof.
  induction l as [|x l IH]; simpl; [constructor|].
  now apply insert_sorted.
Qed.

(** A list of strings has one sorted arrangement. *)
Lemma sorted_unique (l1 : list string) : forall l2,
  StronglySorted le l1 -> StronglySorted le l2 -> Permutation l1 l2 ->
  l1 = l2.
Proof.
  induction l1 as [|a l1 IH]; intros l2 H1 H2 HP.
  - apply Permutation_nil in HP. now subst.
  - destruct l2 as [|b l2].
    + symmetry in HP. apply Permutation_nil in HP. discriminate.
    + inversion H1 as [|? ? Hs1 Ha]; subst.
      inversion H2 as [|? ? Hs2 Hb]; subst.
      assert (Hab : a = b).
      { assert (Hina : In a (b :: l2))
          by (apply (Permutation_in _ HP); now left).
        assert (Hinb : In b (a :: l1))
          by (apply (Permutation_in _ (Permutation_sym HP)); now left).
        destruct Hina as [-> | Hina]; [reflexivity|].
        destruct Hinb as [-> | Hinb]; [reflexivity|].
        rewrite Forall_forall in Ha, Hb.
        apply le_antisym; auto. }
      subst b. f_equal. apply IH; auto.
      now apply Permutation_cons_inv with a.
Qed.

(** [sorted] does not depend on the order of its argument. *)
Lemma sorted_permutation (l l' : list string) :
  Permutation l l' -> PyStr.sorted l = PyStr.sorted l'.
Proof.
  intros HP. apply sorted_unique; try apply sorted_sorted.
  rewrite !sorted_perm. exact HP.
Qed.

End SortedFacts.

(** ** Determinism of the output file *)

Section Determinism.

Variables iter1 iter2 : PySet.t -> list PySet.elt.
Hypothesis iter1_order : iteration_order iter1.
Hypothesis iter2_order : iteration_order iter2.

Lemma iter_permutation (s : PySet.t) : Permutation (iter1 s) (iter2 s).
Proof.
  rewrite (iter1_order s). symmetry. apply iter2_order.
Qed.

Lemma for_each_ext {A S : Type} (body1 body2 : S -> A -> result S)
    (l : list A) :
  (forall s x, body1 s x = body2 s x) ->
  forall s, for_each l body1 s = for_each l body2 s.
Proof.
  intros Hext. induction l as [|x l IH]; intros s; simpl; [reflexivity|].
  rewrite Hext. destruct (body2 s x); simpl; auto.
Qed.

Lemma _CollectDependencies_order (g : Grapher) :
  _CollectDependencies iter1 g = _CollectDependencies iter2 g.
Proof.
  unfold _CollectDependencies. apply for_each_ext. intros deps refid.
  destruct (subscript (_ref_dict g) refid) as [full_name|]; simpl; auto.
  destruct (subscript (_dep_dict g) refid) as [targets|]; simpl; auto.
  rewrite (SortedFacts.sorted_permutation
             (flat_map (registered_short_name g) (iter1 targets))
             (flat_map (registered_short_name g) (iter2 targets)));
    [reflexivity|].
  apply Permutation_flat_map. apply iter_permutation.
Qed.

Lemma OutputDotGraph_order (depth : nat) (can_open : bool) (g : Grapher) :
  OutputDotGraph iter1 depth can_open g
  = OutputDotGraph iter2 depth can_open g.
Proof.
  unfold OutputDotGraph, assemble.
  destruct (_FindNestedClassGroups depth g) as [g1|]; simpl; auto.
  destruct (_CollectGroups g1 (_GetSubgraphDict g1)); simpl; auto.
  destruct (_CollectUngroupedClasses g1 (_GetSubgraphDict g1)); simpl; auto.
  now rewrite _CollectDependencies_order.
Qed.

Lemma report_deps_completes (g : Grapher) (key : string)
    (deps : list PySet.elt) : forall out,
  snd (report_deps g key deps out) = None <->
  forallb (line_ok g key) deps = true.
Proof.
  induction deps as [|[d|] deps IH]; intros out;
    cbn [report_deps forallb line_ok].
  - simpl. tauto.
  - destruct (depends_back g key (Some d)); cbn [andb]; [|apply IH].
    destruct (cycle_line g key d); cbn [andb snd]; [apply IH|].
    split; discriminate.
  - cbn [andb]. apply IH.
Qed.

Lemma report_items_completes (set_iter : PySet.t -> list PySet.elt)
    (g : Grapher) (items : list (string * PySet.t)) : forall out,
  snd (report_items set_iter g items out) = None <->
  forallb (fun '(key, value) => forallb (line_ok g key) (set_iter value))
    items = true.
Proof.
  induction items as [|[key value] items IH]; intros out;
    cbn [report_items forallb].
  - simpl. tauto.
  - pose proof (report_deps_completes g key (set_iter value) out) as Hd.
    destruct (report_deps g key (set_iter value) out) as [out' [e|]];
      cbn [snd] in *.
    + destruct (forallb (line_ok g key) (set_iter value)); cbn [andb].
      * destruct Hd as [_ Hd]. now specialize (Hd eq_refl).
      * split; discriminate.
    + rewrite (proj1 Hd eq_refl). cbn [andb]. apply IH.
Qed.

Lemma forallb_permutation {A : Type} (f : A -> bool) (l l' : list A) :
  Permutation l l' -> forallb f l = forallb f l'.
Proof.
  induction 1; simpl; try congruence.
  - destruct (f x), (f y); reflexivity.
Qed.

Lemma ReportCycles_completes_order (g : Grapher) :
  snd (ReportCycles iter1 g) = None <-> snd (ReportCycles iter2 g) = None.
Proof.
  unfold ReportCycles. rewrite !report_items_completes.
  assert (H : forall items : list (string * PySet.t),
             forallb (fun '(key, value) =>
                        forallb (line_ok g key) (iter1 value)) items
             = forallb (fun '(key, value) =>
                          forallb (line_ok g key) (iter2 value)) items).
  { induction items as [|[key value] items IH]; simpl; [reflexivity|].
    rewrite IH. f_equal. apply forallb_permutation, iter_permutation. }
  now rewrite H.
Qed.

(** C6: two runs on the same XML directory with the same flags write the
    same output file, whatever the order in which each of them iterates
    over its sets; nothing else in a run is left to chance. *)
Theorem output_file_deterministic :
  forall (depth : nat) (can_open report_cycles : bool)
         (ns : option string) (dir : XmlDirectory),
    output_file (main iter1 depth can_open report_cycles ns dir)
    = output_file (main iter2 depth can_open report_cycles ns dir).
Proof.
  intros depth can_open report_cycles ns dir. unfold main.
  set (g := ProcessXML dir ns).
  rewrite OutputDotGraph_order.
  destruct report_cycles; [|reflexivity].
  pose proof (ReportCycles_completes_order g) as H.
  destruct (ReportCycles iter1 g) as [r1 [e1|]],
           (ReportCycles iter2 g) as [r2 [e2|]]; simpl in *.
  - reflexivity.
  - destruct H as [_ H]. now specialize (H eq_refl).
  - destruct H as [H _]. now specialize (H eq_refl).
  - destruct (OutputDotGraph iter2 depth can_open g); reflexivity.
Qed.

End Determinism.

Lemma output_file_deterministic_witness :
  iteration_order insertion_order /\
  iteration_order (@rev PySet.elt) /\
  output_file (main insertion_order 1000 true true None two_types_dir)
  = output_file (main (@rev PySet.elt) 1000 true true None two_types_dir).
Proof.
  assert (H1 : iteration_order insertion_order)
    by (intros s; apply Permutation_refl).
  assert (H2 : iteration_order (@rev PySet.elt))
    by (intros s; symmetry; apply Permutation_rev).
  split; [exact H1|]. split; [exact H2|].
  apply (output_file_deterministic insertion_order (@rev PySet.elt) H1 H2).
Defined.

(** ** Keys of a dict *)

Lemma keys_get {V : Type} (d : Dict.t V) (k : string) :
  In k (Dict.keys d) -> exists v, Dict.get d k = Some v.
Proof.
  intros H. destruct (Dict.get d k) as [v|] eqn:E; [eauto|].
  apply DictFacts.get_None in E. contradiction.
Qed.

Lemma get_keys {V : Type} (d : Dict.t V) (k : string) (v : V) :
  Dict.get d k = Some v -> In k (Dict.keys d).
Proof.
  intros H. apply DictFacts.get_In in H.
  change k with (fst (k, v)). now apply in_map.
Qed.

Lemma mem_keys {V : Type} (d : Dict.t V) (k : string) :
  Dict.mem d k = true <-> In k (Dict.keys d).
Proof.
  unfold Dict.mem. split.
  - destruct (Dict.get d k) eqn:E; [|discriminate].
    intros _. eapply get_keys; eauto.
  - intros H. destruct (keys_get d k H) as [v Hv]. now rewrite Hv.
Qed.

(** ** Group propagation *)

Section Propagation.

Variable depth : nat.
Variables gd0 nd : Dict.t string.

Lemma _GetGroup_step (d : nat) (gd : Dict.t string) (r : string) :
  _GetGroup (S d) gd nd (Some r) =
  match direct_group gd r with
  | Some grp => Ok (Some grp)
  | None => _GetGroup d gd nd (Dict.get nd r)
  end.
Proof.
  unfold direct_group. cbn [_GetGroup].
  destruct (Dict.get gd r) as [grp|]; [|reflexivity].
  destruct (PyStr.truthy grp); reflexivity.
Qed.

Lemma _GetGroup_resolves (gd : Dict.t string) (d : nat) : forall x res,
  _GetGroup d gd nd x = Ok res -> resolves gd nd x res.
Proof.
  induction d as [|d IH]; intros x res H; [discriminate|].
  destruct x as [r|]; [|inversion H; constructor].
  rewrite _GetGroup_step in H.
  destruct (direct_group gd r) as [grp|] eqn:E.
  - inversion H; subst. now apply resolves_here.
  - apply resolves_up; auto.
Qed.

Lemma resolves_functional (gd : Dict.t string) x res1 res2 :
  resolves gd nd x res1 -> resolves gd nd x res2 -> res1 = res2.
Proof.
  intros H1. revert res2.
  induction H1 as [|r grp E|r res E H1 IH]; intros res2 H2;
    inversion H2; subst; try congruence.
  now apply IH.
Qed.

Lemma direct_group_truthy (gd : Dict.t string) r grp :
  direct_group gd r = Some grp ->
  Dict.get gd r = Some grp /\ PyStr.truthy grp = true.
Proof.
  unfold direct_group. destruct (Dict.get gd r) as [v|]; [|discriminate].
  destruct (PyStr.truthy v) eqn:E; [|discriminate].
  intros H; inversion H; subst. auto.
Qed.

Lemma direct_group_set (gd : Dict.t string) k v r :
  PyStr.truthy v = true ->
  direct_group (Dict.set gd k v) r =
  if String.eqb k r then Some v else direct_group gd r.
Proof.
  intros Hv. unfold direct_group. rewrite DictFacts.get_set.
  destruct (String.eqb k r); [now rewrite Hv | reflexivity].
Qed.

Lemma resolves_some_truthy (gd : Dict.t string) x res :
  resolves gd nd x res ->
  forall grp, res = Some grp -> PyStr.truthy grp = true.
Proof.
  induction 1 as [|r g E|r res E H IH]; intros grp Hres.
  - discriminate.
  - inversion Hres; subst. now apply direct_group_truthy in E.
  - now apply IH.
Qed.

Hypothesis enough_depth : depth_suffices depth gd0 nd = true.

Lemma outer_resolves inner outer :
  In (inner, outer) nd ->
  exists res, _GetGroup depth gd0 nd (Some outer) = Ok res.
Proof.
  intros Hin. unfold depth_suffices in enough_depth.
  rewrite forallb_forall in enough_depth.
  specialize (enough_depth _ Hin). cbn in enough_depth.
  destruct (_GetGroup depth gd0 nd (Some outer)) as [res|];
    [eauto | discriminate].
Qed.

End Propagation.

(** ** The pass on chains that end *)

Lemma _GetGroup_deeper (gd nd : Dict.t string) (d : nat) :
  forall d' x res,
    d <= d' ->
    _GetGroup d gd nd x = Ok res -> _GetGroup d' gd nd x = Ok res.
Proof.
  induction d as [|d IH]; intros d' x res Hle H; [discriminate|].
  destruct d' as [|d']; [lia|].
  destruct x as [r|]; [|exact H].
  rewrite _GetGroup_step in *.
  destruct (direct_group gd r); [assumption|].
  apply IH; [lia | assumption].
Qed.

(** A recursion depth that suffices keeps sufficing when it grows. *)
Lemma depth_suffices_deeper (gd nd : Dict.t string) (d d' : nat) :
  d <= d' -> depth_suffices d gd nd = true -> depth_suffices d' gd nd = true.
Proof.
  unfold depth_suffices. intros Hle H.
  rewrite forallb_forall in *. intros [inner outer] Hin.
  specialize (H _ Hin). cbn in H.
  destruct (_GetGroup d gd nd (Some outer)) as [res|] eqn:E; [|discriminate].
  now rewrite (_GetGroup_deeper gd nd d d' _ _ Hle E).
Qed.

Lemma _GetGroup_grouped (gd0 gd nd : Dict.t string) (d : nat) :
  (forall r, direct_group gd0 r <> None -> direct_group gd r <> None) ->
  forall x res0,
    _GetGroup d gd0 nd x = Ok res0 ->
    exists res, _GetGroup d gd nd x = Ok res.
Proof.
  intros Hcover. induction d as [|d IH]; intros x res0 H; [discriminate|].
  destruct x as [r|]; [|eauto].
  rewrite _GetGroup_step in *.
  destruct (direct_group gd r) as [grp|] eqn:E; [eauto|].
  destruct (direct_group gd0 r) as [grp0|] eqn:E0; [|eauto].
  exfalso. apply (Hcover r); [congruence | assumption].
Qed.

Lemma _GetGroup_value (gd nd : Dict.t string) x res :
  resolves gd nd x res ->
  forall grp, res = Some grp ->
    PyStr.truthy grp = true /\ exists r, Dict.get gd r = Some grp.
Proof.
  induction 1 as [|r g E|r res E H IH]; intros grp Hres.
  - discriminate.
  - inversion Hres; subst g. apply direct_group_truthy in E.
    destruct E. eauto.
  - now apply IH.
Qed.

Lemma propagate_item_cases (depth : nat) (nd gd gd' : Dict.t string)
    (inner outer : string) :
  propagate_item depth nd gd (inner, outer) = Ok gd' ->
  gd' = gd \/
  exists grp, gd' = Dict.set gd inner grp /\ PyStr.truthy grp = true /\
              exists r, Dict.get gd r = Some grp.
Proof.
  cbn [propagate_item].
  destruct (_GetGroup depth gd nd (Some outer)) as [[grp|]|] eqn:E;
    cbn [bind]; intros H; inversion H; subst; [|auto].
  right. exists grp. split; [reflexivity|].
  eapply _GetGroup_value; [eapply _GetGroup_resolves; eauto | reflexivity].
Qed.

Lemma propagate_frame (depth : nat) (nd : Dict.t string)
    (items : list (string * string)) : forall gd gd1,
  for_each items (propagate_item depth nd) gd = Ok gd1 ->
  (forall k, ~ In k (map fst items) -> Dict.get gd1 k = Dict.get gd k) /\
  (forall k, In k (Dict.keys gd) -> In k (Dict.keys gd1)) /\
  (forall k v, Dict.get gd1 k = Some v -> exists k', Dict.get gd k' = Some v).
Proof.
  induction items as [|[inner outer] items IH]; intros gd gd1 Hrun.
  - inversion Hrun; subst. repeat split; eauto.
  - cbn [for_each] in Hrun.
    destruct (propagate_item depth nd gd (inner, outer)) as [gd'|e] eqn:Estep;
      [|discriminate].
    cbn [bind] in Hrun. destruct (IH _ _ Hrun) as [Hout [Hkeys Hvals]].
    apply propagate_item_cases in Estep.
    destruct Estep as [-> | [grp [-> [_ [r Hr]]]]].
    + repeat split; auto. intros k Hk. apply Hout. simpl in Hk. tauto.
    + repeat split.
      * intros k Hk. simpl in Hk. rewrite Hout by tauto.
        apply DictFacts.get_set_other. tauto.
      * intros k Hk. apply Hkeys.
        destruct (keys_get _ _ Hk) as [v Hv].
        destruct (string_dec inner k) as [-> | Hne].
        -- eapply get_keys. apply DictFacts.get_set_same.
        -- eapply get_keys. rewrite DictFacts.get_set_other; eauto.
      * intros k v Hv. destruct (Hvals _ _ Hv) as [k' Hk'].
        rewrite DictFacts.get_set in Hk'.
        destruct (String.eqb inner k'); [|eauto].
        inversion Hk'; subst. eauto.
Qed.


Lemma get_app {V : Type} (a b : Dict.t V) (k : string) :
  Dict.get (a ++ b) k =
  match Dict.get a k with
  | Some v => Some v
  | None => Dict.get b k
  end.
Proof.
  induction a as [|[k0 v0] a IH]; simpl; [reflexivity|].
  destruct (String.eqb k0 k); auto.
Qed.

Lemma walk_ends_deeper (nd : Dict.t string) (d : nat) : forall d' x,
  d <= d' -> walk_ends d nd x = true -> walk_ends d' nd x = true.
Proof.
  induction d as [|d IH]; intros d' x Hle H; [discriminate|].
  destruct d' as [|d']; [lia|].
  destruct x as [r|]; [|reflexivity].
  cbn [walk_ends] in *. apply IH; [lia | assumption].
Qed.

(** Once the walk has come to the end of the chain, more depth finds the
    same outermost group. *)
Lemma outermost_group_deeper (gd nd : Dict.t string) (d : nat) : forall d' x,
  d <= d' -> walk_ends d nd x = true ->
  outermost_group d' gd nd x = outermost_group d gd nd x.
Proof.
  induction d as [|d IH]; intros d' x Hle H; [discriminate|].
  destruct d' as [|d']; [lia|].
  destruct x as [r|]; [|reflexivity].
  cbn [walk_ends outermost_group] in *.
  rewrite (IH d' (Dict.get nd r)) by (assumption || lia). reflexivity.
Qed.

Lemma outermost_group_truthy (gd nd : Dict.t string) (d : nat) : forall x grp,
  outermost_group d gd nd x = Some grp -> PyStr.truthy grp = true.
Proof.
  induction d as [|d IH]; intros x grp H; [discriminate|].
  destruct x as [r|]; [|discriminate]. cbn [outermost_group] in H.
  destruct (outermost_group d gd nd (Dict.get nd r)) as [g|] eqn:E.
  - inversion H; subst g. eapply IH; eauto.
  - now apply direct_group_truthy in H.
Qed.

Lemma nearest_grouped_deeper (gd nd : Dict.t string) (d : nat) :
  forall d' x r,
    d <= d' ->
    nearest_grouped d gd nd x = Some r -> nearest_grouped d' gd nd x = Some r.
Proof.
  induction d as [|d IH]; intros d' x r Hle H; [discriminate|].
  destruct d' as [|d']; [lia|].
  destruct x as [y|]; [|discriminate].
  cbn [nearest_grouped] in *.
  destruct (direct_group gd y); [assumption|].
  apply IH; [lia | assumption].
Qed.

Lemma mem_app_l {V : Type} (a b : Dict.t V) (k : string) :
  Dict.mem a k = true -> Dict.mem (a ++ b) k = true.
Proof.
  unfold Dict.mem. rewrite get_app.
  destruct (Dict.get a k); [reflexivity | discriminate].
Qed.

Section OutermostGroup.

Variable depth : nat.
Variables gd0 nd : Dict.t string.

Hypothesis nd_wf : Dict.wf nd.
Hypothesis nd_ends : chains_end depth nd = true.

Lemma outer_walk_ends inner outer :
  In (inner, outer) nd -> walk_ends depth nd (Some outer) = true.
Proof.
  intros Hin. unfold chains_end in nd_ends.
  rewrite forallb_forall in nd_ends. exact (nd_ends _ Hin).
Qed.

(** After the entries [before], [_GetGroup] finds the outermost group of
    the chain it walks, if the nearest entity listed in a group keeps its
    own group or has been visited. *)
Lemma _GetGroup_outermost (before : list (string * string))
    (gd : Dict.t string) :
  incl before nd ->
  (forall r, direct_group gd r = group_after depth gd0 nd before r) ->
  forall d x,
    d <= depth ->
    walk_ends d nd x = true ->
    match nearest_grouped d gd0 nd x with
    | Some r => keeps_own_group depth gd0 nd r || Dict.mem before r = true
    | None => True
    end ->
    _GetGroup d gd nd x = Ok (outermost_group d gd0 nd x).
Proof.
  intros Hincl Hinv.
  induction d as [|d IH]; intros x Hle Hends Hready; [discriminate|].
  destruct x as [r|]; [|reflexivity].
  rewrite _GetGroup_step. cbn [walk_ends outermost_group nearest_grouped] in *.
  assert (Hup : outermost_group d gd0 nd (Dict.get nd r)
                = outermost_group depth gd0 nd (Dict.get nd r))
    by (symmetry; apply outermost_group_deeper; [lia | assumption]).
  rewrite (Hinv r). unfold group_after.
  destruct (Dict.get before r) as [p|] eqn:Ebefore.
  - assert (Hp : Dict.get nd r = Some p).
    { apply (DictFacts.In_get nd r p nd_wf). apply Hincl.
      now apply DictFacts.get_In. }
    rewrite Hp in *. rewrite Hup.
    destruct (outermost_group depth gd0 nd (Some p)) as [w|] eqn:Ew;
      [reflexivity|].
    destruct (direct_group gd0 r) as [own|] eqn:Eown; [reflexivity|].
    rewrite IH; [now rewrite Hup | lia | assumption | assumption].
  - destruct (direct_group gd0 r) as [own|] eqn:Eown.
    + unfold keeps_own_group, Dict.mem in Hready.
      rewrite Ebefore, Eown, orb_false_r in Hready. rewrite Hup.
      destruct (outermost_group depth gd0 nd (Dict.get nd r)) as [w|];
        [|reflexivity].
      apply String.eqb_eq in Hready. now subst.
    + rewrite IH; [|lia | assumption | assumption].
      now destruct (outermost_group d gd0 nd (Dict.get nd r)).
Qed.

(** One iteration of the loop keeps [group_after]. *)
Lemma group_after_step (before : list (string * string))
    (gd : Dict.t string) (inner outer : string) :
  (forall r, direct_group gd r = group_after depth gd0 nd before r) ->
  Dict.get before inner = None ->
  forall r,
    direct_group
      (match outermost_group depth gd0 nd (Some outer) with
       | Some grp => Dict.set gd inner grp
       | None => gd
       end) r
    = group_after depth gd0 nd (before ++ [(inner, outer)]) r.
Proof.
  intros Hinv Hnew r. unfold group_after. rewrite get_app.
  cbn [Dict.get]. destruct (String.eqb inner r) eqn:E.
  - apply String.eqb_eq in E. subst r. rewrite Hnew.
    destruct (outermost_group depth gd0 nd (Some outer)) as [grp|] eqn:Eout.
    + rewrite direct_group_set by (eapply outermost_group_truthy; eauto).
      now rewrite String.eqb_refl.
    + rewrite (Hinv inner). unfold group_after. now rewrite Hnew.
  - assert (Hsame : direct_group
                      (match outermost_group depth gd0 nd (Some outer) with
                       | Some grp => Dict.set gd inner grp
                       | None => gd
                       end) r = direct_group gd r).
    { destruct (outermost_group depth gd0 nd (Some outer)) as [grp|] eqn:Eout;
        [|reflexivity].
      rewrite direct_group_set by (eapply outermost_group_truthy; eauto).
      now rewrite E. }
    rewrite Hsame, (Hinv r). unfold group_after.
    now destruct (Dict.get before r).
Qed.

Lemma propagate_item_outermost (before : list (string * string))
    (gd : Dict.t string) (inner outer : string) :
  incl before nd ->
  (forall r, direct_group gd r = group_after depth gd0 nd before r) ->
  In (inner, outer) nd ->
  entry_ready depth gd0 nd before (inner, outer) = true ->
  propagate_item depth nd gd (inner, outer)
  = Ok (match outermost_group depth gd0 nd (Some outer) with
        | Some grp => Dict.set gd inner grp
        | None => gd
        end).
Proof.
  intros Hincl Hinv Hin Hready. cbn [propagate_item].
  rewrite (_GetGroup_outermost before gd Hincl Hinv depth (Some outer));
    [| lia | now apply (outer_walk_ends inner) |].
  - cbn [bind].
    now destruct (outermost_group depth gd0 nd (Some outer)).
  - unfold entry_ready in Hready.
    now destruct (nearest_grouped depth gd0 nd (Some outer)).
Qed.

Lemma propagate_outermost_loop (items : list (string * string)) :
  forall before gd,
    before ++ items = nd ->
    (forall r, direct_group gd r = group_after depth gd0 nd before r) ->
    entries_ready depth gd0 nd before items = true ->
    exists gd1,
      for_each items (propagate_item depth nd) gd = Ok gd1 /\
      forall r, direct_group gd1 r = group_after depth gd0 nd nd r.
Proof.
  induction items as [|[inner outer] items IH]; intros before gd Hnd Hinv Hready.
  - rewrite app_nil_r in Hnd. subst before. now exists gd.
  - cbn [entries_ready] in Hready. apply andb_true_iff in Hready.
    destruct Hready as [Hentry Hrest].
    assert (Hincl : incl before nd)
      by (rewrite <- Hnd; apply incl_appl, incl_refl).
    assert (Hin : In (inner, outer) nd)
      by (rewrite <- Hnd; apply in_or_app; right; now left).
    assert (Hnew : Dict.get before inner = None).
    { apply DictFacts.get_None. intros Hk.
      unfold Dict.wf, Dict.keys in nd_wf. rewrite <- Hnd in nd_wf.
      rewrite map_app in nd_wf. cbn [map fst] in nd_wf.
      apply NoDup_remove_2 in nd_wf. apply nd_wf.
      apply in_or_app. now left. }
    cbn [for_each].
    rewrite (propagate_item_outermost before gd inner outer Hincl Hinv Hin
               Hentry).
    cbn [bind]. apply (IH (before ++ [(inner, outer)])).
    + rewrite <- app_assoc. exact Hnd.
    + now apply group_after_step.
    + exact Hrest.
Qed.

(** On the group dict that the pass ends with, every entry is ready. *)
Lemma propagate_outermost_fixed (gd1 : Dict.t string)
    (items : list (string * string)) :
  (forall r, direct_group gd1 r = group_after depth gd0 nd nd r) ->
  incl items nd ->
  for_each items (propagate_item depth nd) gd1 = Ok gd1.
Proof.
  intros Hinv. induction items as [|[inner outer] items IH]; intros Hincl;
    [reflexivity|].
  assert (Hin : In (inner, outer) nd) by (apply Hincl; now left).
  cbn [for_each].
  rewrite (propagate_item_outermost nd gd1 inner outer (incl_refl _) Hinv Hin).
  - cbn [bind].
    assert (Hsame : match outermost_group depth gd0 nd (Some outer) with
                    | Some grp => Dict.set gd1 inner grp
                    | None => gd1
                    end = gd1).
    { destruct (outermost_group depth gd0 nd (Some outer)) as [grp|] eqn:Eout;
        [|reflexivity].
      apply DictFacts.set_same.
      apply (direct_group_truthy gd1 inner grp).
      rewrite (Hinv inner). unfold group_after.
      now rewrite (DictFacts.In_get nd inner outer nd_wf Hin), Eout. }
    rewrite Hsame. apply IH. intros e He. apply Hincl. now right.
  - unfold entry_ready.
    destruct (nearest_grouped depth gd0 nd (Some outer)) as [r|];
      [|reflexivity].
    destruct (Dict.mem nd r) eqn:Emem; [apply orb_true_r|].
    unfold keeps_own_group, Dict.mem in *.
    destruct (Dict.get nd r); [discriminate|].
    now destruct depth.
Qed.

(** ** The order of the entries is needed *)

Lemma entry_ready_later (before : list (string * string))
    (item e : string * string) :
  entry_ready depth gd0 nd before e = true ->
  entry_ready depth gd0 nd (before ++ [item]) e = true.
Proof.
  destruct e as [y p]. unfold entry_ready.
  destruct (nearest_grouped depth gd0 nd (Some p)) as [r|]; [|reflexivity].
  rewrite !orb_true_iff. intros [H | H]; [now left | right].
  now apply mem_app_l.
Qed.

(** After entries that were ready, [_GetGroup] stops at the nearest entity
    listed in a group if that entity has not been visited. *)
Lemma _GetGroup_nearest (before : list (string * string))
    (gd : Dict.t string) (x0 : string) :
  incl before nd ->
  (forall r, direct_group gd r = group_after depth gd0 nd before r) ->
  (forall item, In item before ->
                entry_ready depth gd0 nd before item = true) ->
  keeps_own_group depth gd0 nd x0 = false ->
  Dict.mem before x0 = false ->
  forall d x,
    d <= depth ->
    nearest_grouped d gd0 nd x = Some x0 ->
    _GetGroup d gd nd x = Ok (direct_group gd0 x0).
Proof.
  intros Hincl Hinv Hvisited Hkeeps Hmem.
  induction d as [|d IH]; intros x Hle Hnear; [discriminate|].
  destruct x as [r|]; [|discriminate].
  rewrite _GetGroup_step. cbn [nearest_grouped] in Hnear.
  rewrite (Hinv r). unfold group_after.
  destruct (direct_group gd0 r) as [own|] eqn:Eown.
  - inversion Hnear; subst r. unfold Dict.mem in Hmem.
    destruct (Dict.get before x0); [discriminate|]. now rewrite Eown.
  - destruct (Dict.get before r) as [p|] eqn:Ebefore.
    + exfalso.
      assert (Hin : In (r, p) before) by now apply DictFacts.get_In.
      assert (Hp : Dict.get nd r = Some p)
        by (apply (DictFacts.In_get nd r p nd_wf); now apply Hincl).
      rewrite Hp in Hnear.
      specialize (Hvisited _ Hin). unfold entry_ready in Hvisited.
      rewrite (nearest_grouped_deeper gd0 nd d depth _ _ ltac:(lia) Hnear)
        in Hvisited.
      rewrite Hkeeps, Hmem in Hvisited. discriminate.
    + apply IH; [lia | assumption].
Qed.

(** The outermost group of a chain is the one found above the nearest
    entity listed in a group, if there is one above it. *)
Lemma outermost_group_through (x0 grp : string) :
  outermost_group depth gd0 nd (Dict.get nd x0) = Some grp ->
  forall d x,
    d <= depth ->
    walk_ends d nd x = true ->
    nearest_grouped d gd0 nd x = Some x0 ->
    outermost_group d gd0 nd x = Some grp.
Proof.
  intros Hup. induction d as [|d IH]; intros x Hle Hends Hnear;
    [discriminate|].
  destruct x as [r|]; [|discriminate].
  cbn [walk_ends nearest_grouped outermost_group] in *.
  destruct (direct_group gd0 r) as [own|] eqn:Eown.
  - inversion Hnear; subst r.
    rewrite (outermost_group_deeper gd0 nd d depth (Dict.get nd x0)) in Hup
      by (lia || assumption).
    now rewrite Hup.
  - now rewrite (IH _ ltac:(lia) Hends Hnear).
Qed.

(** A pass that leaves every nested entity in the outermost group of its
    chain has met the entries in an order in which each was ready. *)
Lemma outermost_needs_ready (gd1 : Dict.t string)
    (items : list (string * string)) :
  forall before gd,
    before ++ items = nd ->
    (forall r, direct_group gd r = group_after depth gd0 nd before r) ->
    (forall item, In item before ->
                  entry_ready depth gd0 nd before item = true) ->
    for_each items (propagate_item depth nd) gd = Ok gd1 ->
    (forall inner outer grp,
        In (inner, outer) items ->
        outermost_group depth gd0 nd (Some outer) = Some grp ->
        Dict.get gd1 inner = Some grp) ->
    entries_ready depth gd0 nd before items = true.
Proof.
  induction items as [|[inner outer] items IH];
    intros before gd Hnd Hinv Hvisited Hrun Hout; [reflexivity|].
  assert (Hincl : incl before nd)
    by (rewrite <- Hnd; apply incl_appl, incl_refl).
  assert (Hin : In (inner, outer) nd)
    by (rewrite <- Hnd; apply in_or_app; right; now left).
  assert (Hkeys : NoDup (map fst before ++ inner :: map fst items)).
  { unfold Dict.wf, Dict.keys in nd_wf. rewrite <- Hnd in nd_wf.
    now rewrite map_app in nd_wf. }
  assert (Hnew : Dict.get before inner = None).
  { apply DictFacts.get_None. intros Hk.
    apply NoDup_remove_2 in Hkeys. apply Hkeys. apply in_or_app. now left. }
  assert (Hlater : ~ In inner (map fst items)).
  { intros Hk. apply NoDup_remove_2 in Hkeys. apply Hkeys.
    apply in_or_app. now right. }
  cbn [entries_ready for_each] in *.
  destruct (entry_ready depth gd0 nd before (inner, outer)) eqn:Hentry.
  - cbn [andb].
    rewrite (propagate_item_outermost before gd inner outer Hincl Hinv Hin
               Hentry) in Hrun.
    cbn [bind] in Hrun.
    eapply (IH (before ++ [(inner, outer)])); [| | |exact Hrun|].
    + rewrite <- app_assoc. exact Hnd.
    + now apply group_after_step.
    + intros item Hitem. apply in_app_or in Hitem.
      destruct Hitem as [Hitem | [<- | []]]; apply entry_ready_later; auto.
    + intros i o grp Hi. apply Hout. now right.
  - exfalso. unfold entry_ready in Hentry.
    destruct (nearest_grouped depth gd0 nd (Some outer)) as [x0|] eqn:Hnear;
      [|discriminate].
    apply orb_false_iff in Hentry. destruct Hentry as [Hkeeps Hmem].
    pose proof (_GetGroup_nearest before gd x0 Hincl Hinv Hvisited Hkeeps
                  Hmem depth (Some outer) (le_n _) Hnear) as Hget.
    unfold keeps_own_group in Hkeeps.
    destruct (outermost_group depth gd0 nd (Dict.get nd x0)) as [grp|] eqn:Eup;
      [|discriminate].
    destruct (direct_group gd0 x0) as [own|] eqn:Eown; [|discriminate].
    pose proof (outermost_group_through x0 grp Eup depth (Some outer)
                  (le_n _) (outer_walk_ends inner outer Hin) Hnear) as Hw.
    cbn [propagate_item] in Hrun. rewrite Hget in Hrun. cbn [bind] in Hrun.
    destruct (propagate_frame depth nd items _ _ Hrun) as [Hframe _].
    specialize (Hout inner outer grp (or_introl eq_refl) Hw).
    rewrite (Hframe inner Hlater), DictFacts.get_set_same in Hout.
    inversion Hout; subst. rewrite String.eqb_refl in Hkeeps. discriminate.
Qed.

Lemma outermost_needs_overridden_first (gd1 : Dict.t string) :
  propagate_groups depth nd gd0 = Ok gd1 ->
  (forall inner outer grp,
      In (inner, outer) nd ->
      outermost_group depth gd0 nd (Some outer) = Some grp ->
      Dict.get gd1 inner = Some grp) ->
  overridden_first depth gd0 nd = true.
Proof.
  intros Hrun Hout.
  apply (outermost_needs_ready gd1 nd [] gd0);
    [reflexivity | reflexivity | intros item [] | exact Hrun | exact Hout].
Qed.

(** [_GetGroup] finds a group only on a chain that has one in the group
    dict the pass started from, as long as the pass has changed the group
    of nested entities with such a chain only. *)
Lemma _GetGroup_found (gd : Dict.t string) :
  (forall r, direct_group gd r <> direct_group gd0 r ->
             outermost_group depth gd0 nd (Dict.get nd r) <> None) ->
  forall d x grp,
    d <= depth ->
    walk_ends d nd x = true ->
    _GetGroup d gd nd x = Ok (Some grp) ->
    outermost_group d gd0 nd x <> None.
Proof.
  intros Hchanged. induction d as [|d IH]; intros x grp Hle Hends Hget;
    [discriminate|].
  destruct x as [r|]; [|discriminate].
  rewrite _GetGroup_step in Hget. cbn [walk_ends outermost_group] in *.
  destruct (outermost_group d gd0 nd (Dict.get nd r)) as [w|] eqn:Eup;
    [discriminate|].
  destruct (direct_group gd r) as [g|] eqn:Eg.
  - destruct (direct_group gd0 r) as [g0|] eqn:Eg0; [discriminate|].
    exfalso. apply (Hchanged r); [congruence|].
    rewrite (outermost_group_deeper gd0 nd d depth _ ltac:(lia) Hends).
    exact Eup.
  - exfalso. apply (IH _ _ ltac:(lia) Hends Hget). exact Eup.
Qed.

Lemma changes_below_groups (items : list (string * string)) :
  forall gd gd1,
    incl items nd ->
    (forall r, direct_group gd r <> direct_group gd0 r ->
               outermost_group depth gd0 nd (Dict.get nd r) <> None) ->
    for_each items (propagate_item depth nd) gd = Ok gd1 ->
    forall r, direct_group gd1 r <> direct_group gd0 r ->
              outermost_group depth gd0 nd (Dict.get nd r) <> None.
Proof.
  induction items as [|[inner outer] items IH];
    intros gd gd1 Hincl Hchanged Hrun.
  - inversion Hrun; now subst.
  - assert (Hin : In (inner, outer) nd) by (apply Hincl; now left).
    assert (Hincl' : incl items nd)
      by (intros e He; apply Hincl; now right).
    cbn [for_each propagate_item] in Hrun.
    destruct (_GetGroup depth gd nd (Some outer)) as [[grp|]|] eqn:Hget;
      cbn [bind] in Hrun; [| |discriminate].
    + apply (IH (Dict.set gd inner grp) gd1 Hincl'); [|exact Hrun].
      intros r Hr.
      rewrite direct_group_set in Hr
        by (eapply resolves_some_truthy;
            [eapply _GetGroup_resolves; eauto | reflexivity]).
      destruct (String.eqb inner r) eqn:E; [|now apply Hchanged].
      apply String.eqb_eq in E. subst r.
      rewrite (DictFacts.In_get nd inner outer nd_wf Hin).
      exact (_GetGroup_found gd Hchanged depth (Some outer) grp (le_n _)
               (outer_walk_ends inner outer Hin) Hget).
    + exact (IH gd gd1 Hincl' Hchanged Hrun).
Qed.

(** A pass that returns the group dict it started from has changed it at
    no entry: the group it finds for an entry is the one the nested entity
    has. *)
Lemma fixed_pass_steps (items : list (string * string)) : forall gd,
  NoDup (map fst items) ->
  for_each items (propagate_item depth nd) gd = Ok gd ->
  forall inner outer grp,
    In (inner, outer) items ->
    _GetGroup depth gd nd (Some outer) = Ok (Some grp) ->
    Dict.get gd inner = Some grp.
Proof.
  induction items as [|[i o] items IH];
    intros gd Hnodup Hrun inner outer grp Hin Hget; [destruct Hin|].
  inversion Hnodup as [|? ? Hnotin Hnodup']; subst.
  cbn [for_each] in Hrun.
  destruct (propagate_item depth nd gd (i, o)) as [gd'|e] eqn:Estep;
    [|discriminate].
  cbn [bind] in Hrun.
  destruct (propagate_frame depth nd items _ _ Hrun) as [Hframe _].
  assert (Hstep : forall g, _GetGroup depth gd nd (Some o) = Ok (Some g) ->
                            Dict.get gd i = Some g).
  { intros g Hg. cbn [propagate_item] in Estep. rewrite Hg in Estep.
    cbn [bind] in Estep. inversion Estep; subst gd'.
    rewrite (Hframe i Hnotin). apply DictFacts.get_set_same. }
  assert (Hsame : gd' = gd).
  { cbn [propagate_item] in Estep.
    destruct (_GetGroup depth gd nd (Some o)) as [[g|]|] eqn:Hg;
      cbn [bind] in Estep; inversion Estep; [|reflexivity].
    apply DictFacts.set_same. now apply Hstep. }
  subst gd'.
  destruct Hin as [Heq | Hin].
  - inversion Heq; subst i o. now apply Hstep.
  - exact (IH gd Hnodup' Hrun inner outer grp Hin Hget).
Qed.

(** On a group dict that the pass leaves as it is, [_GetGroup] finds the
    outermost group of the chain it walks. *)
Lemma fixed_pass_outermost (gd1 : Dict.t string) :
  (forall r, direct_group gd1 r <> direct_group gd0 r ->
             outermost_group depth gd0 nd (Dict.get nd r) <> None) ->
  (forall inner outer grp,
      In (inner, outer) nd ->
      _GetGroup depth gd1 nd (Some outer) = Ok (Some grp) ->
      Dict.get gd1 inner = Some grp) ->
  forall d x grp,
    d <= depth ->
    walk_ends d nd x = true ->
    outermost_group d gd0 nd x = Some grp ->
    _GetGroup d gd1 nd x = Ok (Some grp).
Proof.
  intros Hchanged Hfix. induction d as [|d IH]; intros x grp Hle Hends Hout;
    [discriminate|].
  destruct x as [r|]; [|discriminate].
  rewrite _GetGroup_step. cbn [walk_ends outermost_group] in *.
  destruct (outermost_group d gd0 nd (Dict.get nd r)) as [w|] eqn:Eup.
  - inversion Hout; subst w.
    destruct (Dict.get nd r) as [p|] eqn:Ep; [|destruct d; discriminate].
    pose proof (IH (Some p) grp ltac:(lia) Hends Eup) as Hget.
    apply (_GetGroup_deeper gd1 nd d depth) in Hget; [|lia].
    assert (Hr : direct_group gd1 r = Some grp).
    { unfold direct_group.
      rewrite (Hfix r p grp (DictFacts.get_In _ _ _ Ep) Hget).
      now rewrite (outermost_group_truthy gd0 nd d _ _ Eup). }
    now rewrite Hr.
  - assert (Hdec : {direct_group gd1 r = direct_group gd0 r} +
                   {direct_group gd1 r <> direct_group gd0 r})
      by (decide equality; apply string_dec).
    destruct Hdec as [Heq | Hne].
    + now rewrite Heq, Hout.
    + exfalso. apply (Hchanged r Hne).
      rewrite (outermost_group_deeper gd0 nd d depth _ ltac:(lia) Hends).
      exact Eup.
Qed.

(** A pass whose result a second pass leaves as it is has put every nested
    entity in the outermost group of its chain. *)
Lemma idempotent_needs_outermost (gd1 : Dict.t string) :
  propagate_groups depth nd gd0 = Ok gd1 ->
  propagate_groups depth nd gd1 = Ok gd1 ->
  forall inner outer grp,
    In (inner, outer) nd ->
    outermost_group depth gd0 nd (Some outer) = Some grp ->
    Dict.get gd1 inner = Some grp.
Proof.
  intros Hrun Hfix inner outer grp Hin Hout.
  assert (Hchanged : forall r,
             direct_group gd1 r <> direct_group gd0 r ->
             outermost_group depth gd0 nd (Dict.get nd r) <> None).
  { apply (changes_below_groups nd gd0 gd1 (incl_refl _)); [|exact Hrun].
    intros r Hr. now destruct Hr. }
  pose proof (fixed_pass_steps nd gd1 nd_wf Hfix) as Hsteps.
  apply (Hsteps inner outer grp Hin).
  exact (fixed_pass_outermost gd1 Hchanged Hsteps depth (Some outer) grp
           (le_n _) (outer_walk_ends inner outer Hin) Hout).
Qed.

(** ** The pass when the order is the needed one *)

Hypothesis nd_ready : overridden_first depth gd0 nd = true.

Lemma propagate_outermost :
  exists gd1,
    propagate_groups depth nd gd0 = Ok gd1 /\
    forall r, direct_group gd1 r = group_after depth gd0 nd nd r.
Proof.
  apply (propagate_outermost_loop nd [] gd0); [reflexivity | | exact nd_ready].
  intros r. reflexivity.
Qed.

End OutermostGroup.

(** Two depths at which [_GetGroup] returns give the same result. *)
Lemma _GetGroup_same (gd nd : Dict.t string) (d d' : nat) x res res' :
  _GetGroup d gd nd x = Ok res -> _GetGroup d' gd nd x = Ok res' ->
  res = res'.
Proof.
  intros H H'. apply _GetGroup_resolves in H, H'.
  exact (resolves_functional nd gd x res res' H H').
Qed.

(** A pass that returns with [n] calls at hand returns the same with the
    recursion depth [depth], if [_GetGroup] returns within [depth] on the
    group dict the pass starts from. *)
Lemma propagate_other_depth (depth n : nat) (gd0 nd : Dict.t string) :
  depth_suffices depth gd0 nd = true ->
  forall items gd gd1,
    incl items nd ->
    (forall r, direct_group gd0 r <> None -> direct_group gd r <> None) ->
    for_each items (propagate_item n nd) gd = Ok gd1 ->
    for_each items (propagate_item depth nd) gd = Ok gd1.
Proof.
  intros Hdepth.
  induction items as [|[inner outer] items IH]; intros gd gd1 Hincl Hcover Hrun;
    [exact Hrun|].
  assert (Hin : In (inner, outer) nd) by (apply Hincl; now left).
  destruct (outer_resolves depth gd0 nd Hdepth _ _ Hin) as [res0 Hget0].
  destruct (_GetGroup_grouped gd0 gd nd depth Hcover _ _ Hget0)
    as [res Hget].
  cbn [for_each] in *.
  destruct (propagate_item n nd gd (inner, outer)) as [gd'|e] eqn:Estep;
    [|discriminate].
  cbn [bind] in Hrun.
  assert (Hstep : propagate_item depth nd gd (inner, outer) = Ok gd').
  { cbn [propagate_item] in *. rewrite Hget.
    destruct (_GetGroup n gd nd (Some outer)) as [res'|] eqn:Hget';
      [|discriminate].
    now rewrite (_GetGroup_same gd nd depth n _ _ _ Hget Hget'). }
  rewrite Hstep. cbn [bind]. apply IH; [|  |exact Hrun].
  - intros e He. apply Hincl. now right.
  - apply propagate_item_cases in Estep.
    destruct Estep as [-> | [grp [-> [Htruthy _]]]]; [assumption|].
    intros r Hr. rewrite direct_group_set by assumption.
    destruct (String.eqb inner r); [discriminate | now apply Hcover].
Qed.

Lemma group_after_grouped (n : nat) (gd0 nd gd1 : Dict.t string) :
  (forall r, direct_group gd1 r = group_after n gd0 nd nd r) ->
  forall r, direct_group gd0 r <> None -> direct_group gd1 r <> None.
Proof.
  intros Hinv r Hr. rewrite (Hinv r). unfold group_after.
  destruct (Dict.get nd r); [|assumption].
  destruct (outermost_group n gd0 nd (Some s)); [discriminate | assumption].
Qed.

(** Chains that end within the recursion depth let [_GetGroup] return
    whatever the groups are. *)
Lemma walk_ends_GetGroup (gd nd : Dict.t string) (d : nat) : forall x,
  walk_ends d nd x = true -> exists res, _GetGroup d gd nd x = Ok res.
Proof.
  induction d as [|d IH]; intros x H; [discriminate|].
  destruct x as [r|]; [|now exists None].
  rewrite _GetGroup_step. cbn [walk_ends] in H.
  destruct (direct_group gd r); eauto.
Qed.

Lemma chains_end_depth_suffices (depth : nat) (gd nd : Dict.t string) :
  chains_end depth nd = true -> depth_suffices depth gd nd = true.
Proof.
  unfold chains_end, depth_suffices. rewrite !forallb_forall.
  intros H [inner outer] Hin. specialize (H _ Hin). cbn in H.
  destruct (walk_ends_GetGroup gd nd depth _ H) as [res Hres].
  cbn. now rewrite Hres.
Qed.

(** C7, as amended: on a nesting relation with distinct keys and without
    cycle (every enclosing chain ends within [n] steps), on which
    [_GetGroup] returns within the recursion depth, a pass of
    [_FindNestedClassGroups] returns a map that a second pass gives again
    exactly when, in the order of the entries, an entity listed in a group
    other than the outermost group of its chain comes before every entry
    whose enclosing chain meets it first ([overridden_first]). *)
Theorem propagation_idempotent_iff_overridden_first :
  forall (depth n : nat) (gd0 nd : Dict.t string),
    Dict.wf nd ->
    chains_end n nd = true ->
    depth_suffices depth gd0 nd = true ->
    ((exists gd1,
         propagate_groups depth nd gd0 = Ok gd1 /\
         propagate_groups depth nd gd1 = Ok gd1) <->
     overridden_first n gd0 nd = true).
Proof.
  intros depth n gd0 nd Hwf Hends Hdepth. split.
  - intros [gd1 [Hrun Hfix]].
    assert (Hrun' : propagate_groups n nd gd0 = Ok gd1).
    { apply (propagate_other_depth n depth gd0 nd
               (chains_end_depth_suffices n gd0 nd Hends) nd gd0 gd1);
        [apply incl_refl | auto | exact Hrun]. }
    assert (Hfix' : propagate_groups n nd gd1 = Ok gd1).
    { apply (propagate_other_depth n depth gd1 nd
               (chains_end_depth_suffices n gd1 nd Hends) nd gd1 gd1);
        [apply incl_refl | auto | exact Hfix]. }
    apply (outermost_needs_overridden_first n gd0 nd Hwf Hends gd1 Hrun').
    exact (idempotent_needs_outermost n gd0 nd Hwf Hends gd1 Hrun' Hfix').
  - intros Hready.
    destruct (propagate_outermost n gd0 nd Hwf Hends Hready)
      as [gd1 [Hrun Hinv]].
    exists gd1. split.
    + apply (propagate_other_depth depth n gd0 nd Hdepth nd gd0 gd1);
        [apply incl_refl | auto | exact Hrun].
    + apply (propagate_other_depth depth n gd0 nd Hdepth nd gd1 gd1);
        [apply incl_refl | now apply (group_after_grouped n gd0 nd) |].
      apply (propagate_outermost_fixed n gd0 nd Hwf Hends gd1 nd Hinv).
      apply incl_refl.
Qed.

Lemma propagation_idempotent_iff_overridden_first_witness :
  Dict.wf outside_in_nesting /\
  chains_end 4 outside_in_nesting = true /\
  depth_suffices 10 two_groups outside_in_nesting = true /\
  overridden_first 4 two_groups outside_in_nesting = true /\
  exists gd1,
    propagate_groups 10 outside_in_nesting two_groups = Ok gd1 /\
    propagate_groups 10 outside_in_nesting gd1 = Ok gd1.
Proof.
  assert (Hwf : Dict.wf outside_in_nesting).
  { repeat constructor; simpl; intuition discriminate. }
  split; [exact Hwf|]. split; [reflexivity|]. split; [reflexivity|].
  split; [reflexivity|].
  apply (proj2 (propagation_idempotent_iff_overridden_first 10 4 two_groups
                  outside_in_nesting Hwf eq_refl eq_refl)).
  reflexivity.
Defined.

(** C7 fails as stated: on the dicts read from [two_groups_dir], the second
    pass moves [kC] from group [g2] to group [g1]. *)
Lemma propagation_not_idempotent :
  let g := ProcessXML two_groups_dir None in
  propagate_groups 1000 (_nested_dict g) (_group_dict g)
  = Ok [("kA", "g1"); ("kB", "g1"); ("kC", "g2")]%string /\
  propagate_groups 1000 (_nested_dict g)
    [("kA", "g1"); ("kB", "g1"); ("kC", "g2")]%string
  = Ok [("kA", "g1"); ("kB", "g1"); ("kC", "g1")]%string /\
  Dict.get [("kA", "g1"); ("kB", "g1"); ("kC", "g2")]%string "kC"
  <> Dict.get [("kA", "g1"); ("kB", "g1"); ("kC", "g1")]%string "kC".
Proof.
  repeat split. discriminate.
Qed.

(** C5, as amended: on a nesting relation with distinct keys and without
    cycle (every enclosing chain ends within [n] steps), on which
    [_GetGroup] returns within the recursion depth, the pass leaves every
    nested entity whose enclosing chain has a container listed in a group
    in the group of the outermost such container, also where a nearer
    container is listed in another group, exactly when the entries come in
    the order [overridden_first]. *)
Theorem outermost_group_iff_overridden_first :
  forall (depth n : nat) (gd0 nd : Dict.t string),
    Dict.wf nd ->
    chains_end n nd = true ->
    depth_suffices depth gd0 nd = true ->
    ((exists gd1,
         propagate_groups depth nd gd0 = Ok gd1 /\
         forall inner outer grp,
           In (inner, outer) nd ->
           outermost_group n gd0 nd (Some outer) = Some grp ->
           Dict.get gd1 inner = Some grp) <->
     overridden_first n gd0 nd = true).
Proof.
  intros depth n gd0 nd Hwf Hends Hdepth. split.
  - intros [gd1 [Hrun Hout]].
    assert (Hrun' : propagate_groups n nd gd0 = Ok gd1).
    { apply (propagate_other_depth n depth gd0 nd
               (chains_end_depth_suffices n gd0 nd Hends) nd gd0 gd1);
        [apply incl_refl | auto | exact Hrun]. }
    exact (outermost_needs_overridden_first n gd0 nd Hwf Hends gd1 Hrun'
             Hout).
  - intros Hready.
    destruct (propagate_outermost n gd0 nd Hwf Hends Hready)
      as [gd1 [Hrun Hinv]].
    exists gd1. split.
    + apply (propagate_other_depth depth n gd0 nd Hdepth nd gd0 gd1);
        [apply incl_refl | auto | exact Hrun].
    + intros inner outer grp Hin Hout.
      apply (direct_group_truthy gd1 inner grp).
      rewrite (Hinv inner). unfold group_after.
      now rewrite (DictFacts.In_get nd inner outer Hwf Hin), Hout.
Qed.

Lemma outermost_group_iff_overridden_first_witness :
  Dict.wf outside_in_nesting /\
  chains_end 4 outside_in_nesting = true /\
  depth_suffices 10 two_groups outside_in_nesting = true /\
  overridden_first 4 two_groups outside_in_nesting = true /\
  nearest_grouped 4 two_groups outside_in_nesting (Some "kB"%string)
  = Some "kB"%string /\
  direct_group two_groups "kB" = Some "g2"%string /\
  outermost_group 4 two_groups outside_in_nesting (Some "kB"%string)
  = Some "g1"%string /\
  exists gd1,
    propagate_groups 10 outside_in_nesting two_groups = Ok gd1 /\
    forall inner outer grp,
      In (inner, outer) outside_in_nesting ->
      outermost_group 4 two_groups outside_in_nesting (Some outer)
      = Some grp ->
      Dict.get gd1 inner = Some grp.
Proof.
  assert (Hwf : Dict.wf outside_in_nesting).
  { repeat constructor; simpl; intuition discriminate. }
  split; [exact Hwf|]. split; [reflexivity|]. split; [reflexivity|].
  split; [reflexivity|]. split; [reflexivity|]. split; [reflexivity|].
  split; [reflexivity|].
  apply (proj2 (outermost_group_iff_overridden_first 10 4 two_groups
                  outside_in_nesting Hwf eq_refl eq_refl)).
  reflexivity.
Defined.

(** The dicts read from [two_groups_dir] have the entries in the other
    order: the entry of [kC], whose enclosing chain meets [kB] first, comes
    before the entry of [kB]. *)
Example two_groups_dir_not_overridden_first :
  let g := ProcessXML two_groups_dir None in
  Dict.wf (_nested_dict g) /\
  chains_end 4 (_nested_dict g) = true /\
  depth_suffices 1000 (_group_dict g) (_nested_dict g) = true /\
  overridden_first 4 (_group_dict g) (_nested_dict g) = false.
Proof.
  split; [|repeat split].
  repeat constructor; simpl; intuition discriminate.
Qed.

(** C5 fails as stated: on the dicts read from [two_groups_dir], [kC] is
    nested in [kB] and [kB] in [kA], the outermost container [kA] is in
    group [g1] after the pass, and [kC] is in group [g2]. *)
Lemma nested_entity_in_other_group :
  let g := ProcessXML two_groups_dir None in
  Dict.get (_nested_dict g) "kC" = Some "kB"%string /\
  Dict.get (_nested_dict g) "kB" = Some "kA"%string /\
  Dict.get (_nested_dict g) "kA" = None /\
  exists gd1,
    propagate_groups 1000 (_nested_dict g) (_group_dict g) = Ok gd1 /\
    Dict.get gd1 "kA" = Some "g1"%string /\
    Dict.get gd1 "kC" = Some "g2"%string.
Proof.
  repeat split.
  exists [("kA", "g1"); ("kB", "g1"); ("kC", "g2")]%string.
  repeat split.
Qed.


(** ** What the cycle report contains when it completes *)

Section CycleReport.

Variable set_iter : PySet.t -> list PySet.elt.
Hypothesis set_iter_order : iteration_order set_iter.

Lemma depends_back_edge (g : Grapher) (key dep : string) :
  depends_back g key (Some dep) = true ->
  In (dep, Some key) (edges (_dep_dict g)).
Proof.
  unfold depends_back.
  destruct (Dict.get (_dep_dict g) dep) as [s|] eqn:E; [|discriminate].
  intros H. apply PySetFacts.mem_In in H. apply DictFacts.get_In in E.
  apply In_edges. eauto.
Qed.

Lemma edge_depends_back (g : Grapher) (key dep : string) :
  Dict.wf (_dep_dict g) ->
  In (dep, Some key) (edges (_dep_dict g)) ->
  depends_back g key (Some dep) = true.
Proof.
  intros Hwf H. apply In_edges in H. destruct H as [s [Hin Hkey]].
  unfold depends_back. rewrite (DictFacts.In_get _ _ _ Hwf Hin).
  now apply PySetFacts.mem_In.
Qed.

Lemma report_deps_lines (g : Grapher) (key : string)
    (deps : list PySet.elt) : forall out line,
  In line (fst (report_deps g key deps out)) ->
  In line out \/
  exists dep, In (Some dep) deps /\
              depends_back g key (Some dep) = true /\
              cycle_line g key dep = Ok line.
Proof.
  induction deps as [|[d|] deps IH]; intros out line;
    cbn [report_deps].
  - auto.
  - destruct (depends_back g key (Some d)) eqn:Eback.
    + destruct (cycle_line g key d) as [l|e] eqn:Eline; cbn [fst].
      * intros H. apply IH in H. destruct H as [H | [dep [H1 H2]]].
        -- apply in_app_or in H. destruct H as [H | [<- | []]]; [auto|].
           right. exists d. simpl. auto.
        -- right. exists dep. simpl. auto.
      * auto.
    + intros H. apply IH in H. destruct H as [H | [dep [H1 H2]]]; [auto|].
      right. exists dep. simpl. auto.
  - intros H. apply IH in H. destruct H as [H | [dep [H1 H2]]]; [auto|].
    right. exists dep. simpl. auto.
Qed.

Lemma report_items_lines (g : Grapher)
    (items : list (string * PySet.t)) : forall out line,
  In line (fst (report_items set_iter g items out)) ->
  In line out \/
  exists key value dep,
    In (key, value) items /\ In (Some dep) value /\
    depends_back g key (Some dep) = true /\
    cycle_line g key dep = Ok line.
Proof.
  induction items as [|[key value] items IH]; intros out line;
    cbn [report_items]; [auto|].
  destruct (report_deps g key (set_iter value) out) as [out' [e|]] eqn:E.
  - cbn [fst]. intros H.
    pose proof (report_deps_lines g key (set_iter value) out line) as Hd.
    rewrite E in Hd. destruct (Hd H) as [Hout | [dep [H1 H2]]]; [auto|].
    right. exists key, value, dep. repeat split; try apply H2; [now left|].
    now apply (Permutation_in _ (set_iter_order value)).
  - intros H. apply IH in H.
    destruct H as [H | [k [v [dep [H1 H2]]]]].
    + pose proof (report_deps_lines g key (set_iter value) out line) as Hd.
      rewrite E in Hd. destruct (Hd H) as [Hout | [dep [H1 H2]]]; [auto|].
      right. exists key, value, dep.
      repeat split; try apply H2; [now left|].
      now apply (Permutation_in _ (set_iter_order value)).
    + right. exists k, v, dep. repeat split; try apply H2. now right.
Qed.

(** X14: whatever the order of iteration, every line that [ReportCycles]
    prints names the two entities of a pair whose two edges are recorded:
    an entity that is on a longer cycle only is not named. *)
Lemma ReportCycles_sound (g : Grapher) (line : string) :
  In line (fst (ReportCycles set_iter g)) ->
  exists a b, two_cycle g a b /\ cycle_line g a b = Ok line.
Proof.
  intros H. apply report_items_lines in H.
  destruct H as [[] | [key [value [dep [Hin [Hdep [Hback Hline]]]]]]].
  exists key, dep. split; [split|assumption].
  - apply In_edges. eauto.
  - now apply depends_back_edge.
Qed.

Lemma report_deps_keeps (g : Grapher) (key : string)
    (deps : list PySet.elt) : forall out line,
  forallb (line_ok g key) deps = true ->
  In line out -> In line (fst (report_deps g key deps out)).
Proof.
  induction deps as [|[d|] deps IH]; intros out line;
    cbn [report_deps forallb line_ok]; [auto| |].
  - destruct (depends_back g key (Some d)); cbn [andb]; [|apply IH].
    destruct (cycle_line g key d); cbn [andb]; [|discriminate].
    intros Hok Hin. apply IH; [assumption|]. apply in_or_app. auto.
  - cbn [andb]. apply IH.
Qed.

Lemma report_deps_complete (g : Grapher) (key : string)
    (deps : list PySet.elt) : forall out dep,
  forallb (line_ok g key) deps = true ->
  In (Some dep) deps ->
  depends_back g key (Some dep) = true ->
  exists line, cycle_line g key dep = Ok line /\
               In line (fst (report_deps g key deps out)).
Proof.
  induction deps as [|[d|] deps IH]; intros out dep;
    cbn [report_deps forallb line_ok]; [intros _ []| |].
  - intros Hok [Heq | Hin] Hback.
    + inversion Heq; subst d. rewrite Hback in *.
      destruct (cycle_line g key dep) as [line|]; [|discriminate].
      exists line. split; [reflexivity|].
      apply report_deps_keeps; [exact Hok|]. apply in_or_app. simpl. auto.
    + apply andb_true_iff in Hok. destruct Hok as [Hd Hok].
      destruct (depends_back g key (Some d)); [|now apply IH].
      destruct (cycle_line g key d); [now apply IH | discriminate].
  - cbn [andb]. intros Hok [Heq | Hin]; [discriminate | now apply IH].
Qed.

Lemma report_items_keeps (g : Grapher)
    (items : list (string * PySet.t)) : forall out line,
  forallb (fun '(key, value) => forallb (line_ok g key) (set_iter value))
    items = true ->
  In line out -> In line (fst (report_items set_iter g items out)).
Proof.
  induction items as [|[key value] items IH]; intros out line;
    cbn [report_items forallb]; [auto|].
  intros Hok Hin. apply andb_true_iff in Hok. destruct Hok as [Hd Hok].
  pose proof (report_deps_keeps g key (set_iter value) out line Hd Hin)
    as Hkeep.
  pose proof (proj2 (report_deps_completes g key (set_iter value) out) Hd)
    as Hnone.
  destruct (report_deps g key (set_iter value) out) as [out' [e|]];
    cbn [snd fst] in *; [discriminate|].
  now apply IH.
Qed.

Lemma report_items_complete (g : Grapher)
    (items : list (string * PySet.t)) : forall out key value dep,
  forallb (fun '(key, value) => forallb (line_ok g key) (set_iter value))
    items = true ->
  In (key, value) items -> In (Some dep) value ->
  depends_back g key (Some dep) = true ->
  exists line, cycle_line g key dep = Ok line /\
               In line (fst (report_items set_iter g items out)).
Proof.
  induction items as [|[k v] items IH]; intros out key value dep;
    cbn [report_items forallb]; [intros _ []|].
  intros Hok Hin Hdep Hback.
  apply andb_true_iff in Hok. destruct Hok as [Hd Hok].
  pose proof (proj2 (report_deps_completes g k (set_iter v) out) Hd)
    as Hnone.
  destruct Hin as [Heq | Hin].
  - inversion Heq; subst k v.
    assert (Hdep' : In (Some dep) (set_iter value))
      by now apply (Permutation_in _ (Permutation_sym (set_iter_order value))).
    destruct (report_deps_complete g key (set_iter value) out dep Hd Hdep'
                Hback) as [line [Hline Hout]].
    exists line. split; [assumption|].
    destruct (report_deps g key (set_iter value) out) as [out' [e|]];
      cbn [snd fst] in *; [discriminate|].
    now apply report_items_keeps.
  - destruct (report_deps g k (set_iter v) out) as [out' [e|]];
      cbn [snd] in *; [discriminate|].
    now apply (IH out' key value dep).
Qed.

(** Where both entities of every such pair have a registered name, the
    report completes and has a line for each ordered pair. *)
Lemma ReportCycles_complete_when_registered (g : Grapher) :
  Dict.wf (_dep_dict g) ->
  (forall a b, two_cycle g a b ->
               Dict.mem (_ref_dict g) a = true /\
               Dict.mem (_ref_dict g) b = true) ->
  snd (ReportCycles set_iter g) = None /\
  forall a b, two_cycle g a b ->
    exists line, cycle_line g a b = Ok line /\
                 In line (fst (ReportCycles set_iter g)).
Proof.
  intros Hwf Hreg.
  assert (Hok : forallb (fun '(key, value) =>
                           forallb (line_ok g key) (set_iter value))
                  (Dict.items (_dep_dict g)) = true).
  { apply forallb_forall. intros [key value] Hin.
    apply forallb_forall. intros [dep|] Hdep; [|reflexivity].
    cbn [line_ok]. destruct (depends_back g key (Some dep)) eqn:Hback;
      [|reflexivity].
    assert (Hcycle : two_cycle g key dep).
    { split; [|now apply depends_back_edge].
      apply In_edges. exists value. split; [assumption|].
      now apply (Permutation_in _ (set_iter_order value)). }
    destruct (Hreg _ _ Hcycle) as [Ha Hb].
    unfold cycle_line, subscript, Dict.mem in *.
    destruct (Dict.get (_ref_dict g) key); [|discriminate].
    destruct (Dict.get (_ref_dict g) dep); [|discriminate].
    reflexivity. }
  split.
  - now apply report_items_completes.
  - intros a b [Hab Hba]. apply In_edges in Hab.
    destruct Hab as [value [Hin Hdep]].
    apply (report_items_complete g _ [] a value b Hok Hin Hdep).
    now apply edge_depends_back.
Qed.

End CycleReport.


(** ** The dicts of a run *)

Section RunInvariant.

Variable dir : XmlDirectory.

Lemma fold_left_inv {A B : Type} (P : A -> Prop) (f : A -> B -> A)
    (l : list B) :
  (forall a x, P a -> P (f a x)) -> forall a, P a -> P (fold_left f l a).
Proof.
  intros Hstep. induction l as [|x l IH]; intros a Ha; simpl; auto.
Qed.

Lemma grapher_inv_new (ns : option string) : grapher_inv (new_Grapher ns).
Proof.
  split; [apply dep_inv_empty|]. repeat split; constructor.
Qed.

Lemma grapher_inv_AddDependency (g : Grapher) from_refid to_refid :
  grapher_inv g -> grapher_inv (_AddDependency g from_refid to_refid).
Proof.
  intros [Hdep Hrest]. split; [|exact Hrest].
  cbn. now apply dep_inv_add.
Qed.

Lemma grapher_inv_ref (g : Grapher) k v :
  grapher_inv g -> grapher_inv (with_ref_dict g (Dict.set (_ref_dict g) k v)).
Proof.
  intros [Hdep [Href [Hnested Hgroup]]].
  split; [exact Hdep|]. split; [|split]; cbn; try assumption;
    now apply DictFacts.wf_set.
Qed.

Lemma grapher_inv_nested (g : Grapher) k v :
  grapher_inv g ->
  grapher_inv (with_nested_dict g (Dict.set (_nested_dict g) k v)).
Proof.
  intros [Hdep [Href [Hnested Hgroup]]].
  split; [exact Hdep|]. split; [|split]; cbn; try assumption;
    now apply DictFacts.wf_set.
Qed.

Lemma grapher_inv_group (g : Grapher) k v :
  grapher_inv g ->
  grapher_inv (with_group_dict g (Dict.set (_group_dict g) k v)).
Proof.
  intros [Hdep [Href [Hnested Hgroup]]].
  split; [exact Hdep|]. split; [|split]; cbn; try assumption;
    now apply DictFacts.wf_set.
Qed.

Lemma grapher_inv_ProcessGroupFile (g : Grapher) refid :
  grapher_inv g -> grapher_inv (_ProcessGroupFile dir g refid).
Proof.
  unfold _ProcessGroupFile. destruct (compound_xml dir refid); [|auto].
  apply fold_left_inv. intros a x. apply grapher_inv_group.
Qed.

Lemma grapher_inv_ProcessClassFunction (g : Grapher) class_refid func :
  grapher_inv g -> grapher_inv (_ProcessClassFunction g class_refid func).
Proof.
  intros Hg. unfold _ProcessClassFunction.
  apply fold_left_inv; [intros; now apply grapher_inv_AddDependency|].
  apply fold_left_inv; [|assumption].
  intros a [r|] Ha; [|assumption].
  destruct (PyStr.truthy r); [now apply grapher_inv_AddDependency|assumption].
Qed.

Lemma grapher_inv_ProcessClassMember (g : Grapher) class_refid member :
  grapher_inv g -> grapher_inv (_ProcessClassMember g class_refid member).
Proof.
  intros Hg. unfold _ProcessClassMember.
  destruct (String.eqb (member_kind member) "variable").
  - destruct (member_type member);
      [now apply grapher_inv_AddDependency | assumption].
  - destruct (String.eqb (member_kind member) "function"); [|assumption].
    apply grapher_inv_ProcessClassFunction.
    destruct (member_type member);
      [now apply grapher_inv_AddDependency | assumption].
Qed.

Lemma grapher_inv_ProcessClassFile (g : Grapher) refid :
  grapher_inv g -> grapher_inv (_ProcessClassFile dir g refid).
Proof.
  intros Hg. unfold _ProcessClassFile.
  destruct (compound_xml dir refid) as [root|]; [|assumption].
  apply fold_left_inv;
    [intros; now apply grapher_inv_ProcessClassMember|].
  apply fold_left_inv.
  { intros a x Ha. apply grapher_inv_nested.
    now apply grapher_inv_AddDependency. }
  apply fold_left_inv; [|assumption].
  intros a x Ha. destruct (baseref_text x) as [name|]; [|assumption].
  destruct (_IncludeName (_target_namespace a) name);
    [now apply grapher_inv_AddDependency | assumption].
Qed.

Lemma grapher_inv_ProcessIndexFile (g : Grapher) :
  grapher_inv g -> grapher_inv (_ProcessIndexFile dir g).
Proof.
  intros Hg. unfold _ProcessIndexFile.
  destruct (index_xml dir) as [root|]; [|assumption].
  apply fold_left_inv; [|assumption].
  intros a c Ha.
  destruct (class_like_or_group (compound_kind c)); [|assumption].
  pose proof (grapher_inv_ref a (compound_refid c) (compound_name c) Ha)
    as Ha'.
  destruct (String.eqb (compound_kind c) "group").
  - now apply grapher_inv_ProcessGroupFile.
  - match goal with |- grapher_inv (if ?b then _ else _) => destruct b end;
      [now apply grapher_inv_ProcessClassFile | assumption].
Qed.

(** Whatever the XML directory, the dependency relation that [ProcessXML]
    builds has no self-edge and no duplicate, and every dict has each key
    once. *)
Lemma grapher_inv_ProcessXML (ns : option string) :
  grapher_inv (ProcessXML dir ns).
Proof.
  apply grapher_inv_ProcessIndexFile, grapher_inv_new.
Qed.

(** X17: whatever the XML directory and the target namespace, the
    dependency relation that [ProcessXML] returns has no edge from an
    entity to itself and holds every edge once. *)
Lemma ProcessXML_no_self_edge (ns : option string) :
  (forall k, ~ In (k, Some k) (edges (_dep_dict (ProcessXML dir ns)))) /\
  NoDup (edges (_dep_dict (ProcessXML dir ns))).
Proof.
  destruct (grapher_inv_ProcessXML ns) as [Hdep _]. split.
  - intros k H. apply In_edges in H. destruct H as [s [Hin Hself]].
    now apply (proj2 Hdep k s).
  - now apply dep_inv_NoDup_edges.
Qed.

End RunInvariant.

(** ** Source keys without a registered name *)

Section UnregisteredSource.

Variable set_iter : PySet.t -> list PySet.elt.
Variable g : Grapher.

(** The loop of [_CollectDependencies] over keys of [_dep_dict] raises at
    the first key that has no registered name. *)
Lemma collect_loop_raises (keys : list string) : forall acc,
  (forall k, In k keys -> In k (Dict.keys (_dep_dict g))) ->
  (exists k, In k keys /\ Dict.get (_ref_dict g) k = None) ->
  exists k,
    In k keys /\ Dict.get (_ref_dict g) k = None /\
    for_each keys
      (fun dependencies refid =>
         full_name <- subscript (_ref_dict g) refid ;;
         let name := _GetShortName (_target_namespace g) full_name in
         targets <- subscript (_dep_dict g) refid ;;
         let deps := flat_map (registered_short_name g) (set_iter targets) in
         Ok (dependencies ++
             [Writer.mkDependencies name (PyStr.sorted deps)]))
      acc
    = Raise (KeyError k).
Proof.
  induction keys as [|k keys IH]; intros acc Hkeys [k0 [Hin Hnone]];
    [destruct Hin|].
  cbn [for_each]. unfold subscript at 1.
  destruct (Dict.get (_ref_dict g) k) as [full_name|] eqn:Eref.
  - cbn [bind]. unfold subscript at 1.
    destruct (Dict.get (_dep_dict g) k) as [targets|] eqn:Edep.
    + cbn [bind].
      destruct Hin as [-> | Hin]; [congruence|].
      destruct (IH (acc ++
                    [Writer.mkDependencies
                       (_GetShortName (_target_namespace g) full_name)
                       (PyStr.sorted
                          (flat_map (registered_short_name g)
                             (set_iter targets)))]))
        as [k1 [Hin1 [Hnone1 Hrun]]].
      * intros k' Hk'. apply Hkeys. now right.
      * eauto.
      * exists k1. repeat split; auto. now right.
    + apply DictFacts.get_None in Edep. exfalso. apply Edep.
      apply Hkeys. now left.
  - exists k. repeat split; auto. now left.
Qed.

(** X16: [_CollectDependencies] has no membership test for the source of
    an edge: as soon as one key of [_dep_dict] has no registered name it
    raises [KeyError] on such a key and returns no list. *)
Lemma _CollectDependencies_raises :
  (exists k, In k (Dict.keys (_dep_dict g)) /\
             Dict.get (_ref_dict g) k = None) ->
  exists k,
    In k (Dict.keys (_dep_dict g)) /\ Dict.get (_ref_dict g) k = None /\
    _CollectDependencies set_iter g = Raise (KeyError k).
Proof.
  intros [k0 [Hin Hnone]]. unfold _CollectDependencies.
  destruct (collect_loop_raises (PyStr.sorted (Dict.keys (_dep_dict g))) [])
    as [k [Hk [Hnonek Hrun]]].
  - intros k. apply SortedFacts.In_sorted.
  - exists k0. split; [now apply SortedFacts.In_sorted | assumption].
  - exists k. repeat split; auto. now apply SortedFacts.In_sorted.
Qed.

End UnregisteredSource.

(** ** Propagation on the dicts of a run *)

(** The keys of the nesting relation that [ProcessXML] builds are
    distinct, so on the dicts of a run the pass is idempotent as soon as
    the chains end within the depth and the overridden entities come
    first. *)
Lemma FindNestedClassGroups_idempotent_after_ProcessXML
    (dir : XmlDirectory) (ns : option string) (depth : nat) :
  let g := ProcessXML dir ns in
  chains_end depth (_nested_dict g) = true ->
  overridden_first depth (_group_dict g) (_nested_dict g) = true ->
  exists g1,
    _FindNestedClassGroups depth g = Ok g1 /\
    _FindNestedClassGroups depth g1 = Ok g1.
Proof.
  intros g Hends Hready.
  destruct (grapher_inv_ProcessXML dir ns) as [_ [_ [Hwf _]]].
  fold g in Hwf.
  destruct (propagate_outermost depth (_group_dict g) (_nested_dict g)
              Hwf Hends Hready) as [gd1 [Hrun Hinv]].
  exists (with_group_dict g gd1). unfold _FindNestedClassGroups.
  rewrite Hrun. cbn [bind]. split; [reflexivity|].
  cbn [_nested_dict _group_dict with_group_dict].
  assert (Hfix : propagate_groups depth (_nested_dict g) gd1 = Ok gd1).
  { apply (propagate_outermost_fixed depth (_group_dict g) (_nested_dict g)
             Hwf Hends gd1 (_nested_dict g) Hinv). apply incl_refl. }
  rewrite Hfix. reflexivity.
Qed.

(** * Further properties of the code *)

(** ** Recorded edges *)

Lemma In_set_other {V : Type} (d : Dict.t V) k v k' v' :
  k' <> k -> In (k', v') d -> In (k', v') (Dict.set d k v).
Proof.
  intros Hne. induction d as [|[k0 v0] d IH]; simpl; [tauto|].
  destruct (String.eqb k0 k) eqn:E; simpl.
  - apply String.eqb_eq in E. subst k0.
    intros [H | H]; [inversion H; subst; contradiction | auto].
  - intros [H | H]; auto.
Qed.

Lemma In_set_same {V : Type} (d : Dict.t V) k v :
  In (k, v) (Dict.set d k v).
Proof.
  apply DictFacts.get_In, DictFacts.get_set_same.
Qed.

(** The edges after one call of [_AddDependency]. *)
Lemma edges_add_dependency (d : Dict.t PySet.t) f x k t :
  dep_inv d ->
  In (k, t) (edges (add_dependency d f x)) <->
  In (k, t) (edges d) \/ ((k, t) = (f, x) /\ Some f <> x).
Proof.
  intros [Hwf Hsets].
  destruct (PySet.elt_eqb (Some f) x) eqn:E.
  - apply PySetFacts.elt_eqb_eq in E. subst x. rewrite add_dependency_self.
    split; [auto | intros [H | [_ H]]; [assumption | congruence]].
  - assert (Hne : Some f <> x).
    { intros H. apply PySetFacts.elt_eqb_eq in H. congruence. }
    rewrite add_dependency_other by assumption.
    set (s0 := match Dict.get d f with Some s => s | None => PySet.empty end).
    rewrite !In_edges. split.
    + intros [s [Hin Ht]]. apply DictFacts.In_set in Hin.
      destruct Hin as [[-> ->] | Hin]; [|left; eauto].
      apply PySetFacts.In_add in Ht. destruct Ht as [-> | Ht]; [auto|].
      left. subst s0. destruct (Dict.get d f) as [s|] eqn:G; [|destruct Ht].
      exists s. split; [now apply DictFacts.get_In | assumption].
    + intros [[s [Hin Ht]] | [Heq _]].
      * destruct (string_dec k f) as [-> | Hkf].
        -- exists (PySet.add s0 x). split; [apply In_set_same|].
           apply PySetFacts.In_add. right. subst s0.
           now rewrite (DictFacts.In_get _ _ _ Hwf Hin).
        -- exists s. split; [now apply In_set_other | assumption].
      * inversion Heq; subst k t. exists (PySet.add s0 x).
        split; [apply In_set_same|]. apply PySetFacts.In_add. now left.
Qed.

Lemma edges_add_dependencies (ops : list (string * PySet.elt)) :
  forall g k t,
    dep_inv (_dep_dict g) ->
    In (k, t) (edges (_dep_dict (add_dependencies g ops))) <->
    In (k, t) (edges (_dep_dict g)) \/ (In (k, t) ops /\ Some k <> t).
Proof.
  induction ops as [|[f x] ops IH]; intros g k t Hinv; simpl.
  - tauto.
  - rewrite IH by (now apply dep_inv_add). cbn [_dep_dict _AddDependency
      with_dep_dict]. rewrite edges_add_dependency by assumption.
    split.
    + intros [[H | [Heq Hne]] | [H Hne]]; auto.
      inversion Heq; subst. auto.
    + intros [H | [[Heq | H] Hne]]; auto.
      inversion Heq; subst. auto.
Qed.

(** X1: after any sequence of calls of [_AddDependency] on a new grapher,
    the recorded edges are exactly the pairs that were passed to a call
    and whose source and target differ: nothing else is recorded and no
    such pair is lost. *)
Theorem recorded_edges_are_the_added_ones :
  forall (ns : option string) (ops : list (string * PySet.elt))
         (k : string) (t : PySet.elt),
    In (k, t) (edges (_dep_dict (add_dependencies (new_Grapher ns) ops))) <->
    In (k, t) ops /\ Some k <> t.
Proof.
  intros ns ops k t.
  rewrite edges_add_dependencies by apply dep_inv_empty.
  cbn. tauto.
Qed.

(** ** The owner of a member *)

Lemma contains_char_before_last (sep : ascii) (s : string) :
  contains (String sep EmptyString) s = false ->
  PyStr.before_last sep s = None.
Proof.
  induction s as [|c s IH]; [reflexivity|].
  cbn [contains String.prefix]. intros H.
  apply orb_false_iff in H. destruct H as [Hc Hs].
  cbn [PyStr.before_last]. rewrite (IH Hs).
  destruct (ascii_dec sep c) as [<- | Hne].
  - destruct s; discriminate.
  - destruct (Ascii.eqb c sep) eqn:E; [|reflexivity].
    apply Ascii.eqb_eq in E. congruence.
Qed.

Lemma before_last_append (sep : ascii) (owner suffix : string) :
  PyStr.before_last sep suffix = None ->
  PyStr.before_last sep (owner ++ String sep suffix) = Some owner.
Proof.
  intros Hs. induction owner as [|c owner IH]; cbn.
  - rewrite Hs. now rewrite Ascii.eqb_refl.
  - cbn in IH. now rewrite IH.
Qed.

(** X2: a member key is the key of its owner, an underscore and an id
    without underscore; cutting it at the last underscore, as the
    call-reference rule does, gives the key of the owner back, whatever
    underscores that key has. *)
Theorem rsplit1_head_gives_owner :
  forall (owner suffix : string),
    contains "_" suffix = false ->
    PyStr.rsplit1_head "_" (owner ++ "_" ++ suffix) = owner.
Proof.
  intros owner suffix H. unfold PyStr.rsplit1_head.
  change ("_" ++ suffix)%string with (String "_"%char suffix).
  rewrite before_last_append; [reflexivity|].
  now apply contains_char_before_last.
Qed.

Lemma rsplit1_head_gives_owner_witness :
  contains "_" "1a2b3c" = false /\
  PyStr.rsplit1_head "_" ("class_my_class" ++ "_" ++ "1a2b3c")
  = "class_my_class"%string.
Proof.
  split; [reflexivity|].
  apply (rsplit1_head_gives_owner "class_my_class" "1a2b3c"). reflexivity.
Defined.

Lemma _AddDependency_self (g : Grapher) (refid : string) :
  _AddDependency g refid (Some refid) = g.
Proof.
  unfold _AddDependency. rewrite add_dependency_self. now destruct g.
Qed.

(** X3: a method that is called by methods of its own class gets no edge
    from these calls: the callers' keys lead back to the class, and the
    self-dependency is dropped. *)
Theorem calls_within_class_add_no_edge :
  forall (g : Grapher) (class_refid kind : string) (type : option string)
         (params : list (option string)) (suffixes : list string),
    Forall (fun suffix => contains "_" suffix = false) suffixes ->
    _ProcessClassFunction g class_refid
      (mkMemberDef kind type params
         (map (fun suffix => class_refid ++ "_" ++ suffix)%string suffixes))
    = _ProcessClassFunction g class_refid (mkMemberDef kind type params []).
Proof.
  intros g class_refid kind type params suffixes Hs.
  unfold _ProcessClassFunction. cbn [member_params member_referencedby].
  match goal with
  | |- fold_left _ (map _ _) ?a = _ => generalize a
  end.
  induction Hs as [|suffix suffixes Hsuffix _ IH]; intros g1;
    [reflexivity|].
  assert (Hcut : PyStr.rsplit1_head "_" (class_refid ++ "_" ++ suffix)
                 = class_refid).
  { unfold PyStr.rsplit1_head.
    change ("_" ++ suffix)%string with (String "_"%char suffix).
    rewrite before_last_append; [reflexivity|].
    now apply contains_char_before_last. }
  cbn [map fold_left]. rewrite Hcut, _AddDependency_self. apply IH.
Qed.

Lemma calls_within_class_add_no_edge_witness :
  Forall (fun suffix => contains "_" suffix = false)
    ["1a2b"; "1c3d"]%string /\
  _ProcessClassFunction (new_Grapher None) "classFoo"
    (mkMemberDef "function" None []
       (map (fun suffix => "classFoo" ++ "_" ++ suffix)%string
          ["1a2b"; "1c3d"]%string))
  = _ProcessClassFunction (new_Grapher None) "classFoo"
      (mkMemberDef "function" None [] []).
Proof.
  assert (H : Forall (fun suffix => contains "_" suffix = false)
                ["1a2b"; "1c3d"]%string)
    by (repeat constructor).
  split; [exact H|].
  apply (calls_within_class_add_no_edge (new_Grapher None) "classFoo"
           "function" None [] ["1a2b"; "1c3d"]%string H).
Defined.

(** ** The reversed group dict *)

Lemma subgraph_fold (items : list (string * string)) :
  forall (sd : Dict.t (list string)) (k v : string),
    (exists members,
        Dict.get
          (fold_left
             (fun sd '(k, v) =>
                let members :=
                  match Dict.get sd v with
                  | Some l => l
                  | None => []
                  end in
                Dict.set (Dict.set sd v members) v (members ++ [k]))
             items sd) v = Some members /\ In k members) <->
    (exists members, Dict.get sd v = Some members /\ In k members) \/
    In (k, v) items.
Proof.
  induction items as [|[k0 v0] items IH]; intros sd k v; cbn [fold_left].
  - simpl. tauto.
  - rewrite IH. rewrite DictFacts.set_set, DictFacts.get_set.
    destruct (String.eqb v0 v) eqn:E.
    + apply String.eqb_eq in E. subst v0. split.
      * intros [[members [Hget Hin]] | Hin]; [|simpl; auto].
        inversion Hget; subst members. apply in_app_or in Hin.
        destruct Hin as [Hin | [<- | []]]; [|simpl; auto].
        left. destruct (Dict.get sd v) as [l|]; [eauto | destruct Hin].
      * intros [[members [Hget Hin]] | [Heq | Hin]]; [| |auto].
        -- left. rewrite Hget. eexists. split; [reflexivity|].
           apply in_or_app. auto.
        -- inversion Heq; subst k0. left. eexists. split; [reflexivity|].
           apply in_or_app. simpl. auto.
    + apply String.eqb_neq in E. split.
      * intros [H | H]; simpl; auto.
      * intros [H | [Heq | H]]; auto. inversion Heq; subst. congruence.
Qed.

Lemma subgraph_members_nonempty (items : list (string * string)) :
  forall (sd : Dict.t (list string)),
    (forall v members, Dict.get sd v = Some members -> members <> []) ->
    forall v members,
      Dict.get
        (fold_left
           (fun sd '(k, v) =>
              let members :=
                match Dict.get sd v with
                | Some l => l
                | None => []
                end in
              Dict.set (Dict.set sd v members) v (members ++ [k]))
           items sd) v = Some members ->
      members <> [].
Proof.
  induction items as [|[k0 v0] items IH]; intros sd Hsd; cbn [fold_left];
    [exact Hsd|].
  apply IH. intros v members. rewrite DictFacts.set_set, DictFacts.get_set.
  destruct (String.eqb v0 v); [|apply Hsd].
  intros H. inversion H. now destruct (Dict.get sd v0) as [[|]|].
Qed.

(** X4: [_GetSubgraphDict] reverses [_group_dict]: a class is listed under
    a group exactly when [_group_dict] maps the class to the group, and the
    keys of the result are exactly the groups that have a member: no key
    has an empty list of members. *)
Theorem subgraph_dict_reverses_group_dict :
  forall (g : Grapher),
    (forall member group : string,
        (exists members,
            Dict.get (_GetSubgraphDict g) group = Some members /\
            In member members) <->
        In (member, group) (Dict.items (_group_dict g))) /\
    (forall group : string,
        In group (Dict.keys (_GetSubgraphDict g)) <->
        exists member, In (member, group) (Dict.items (_group_dict g))) /\
    (forall (group : string) (members : list string),
        Dict.get (_GetSubgraphDict g) group = Some members ->
        members <> []).
Proof.
  intros g.
  assert (Hrev : forall member group : string,
             (exists members,
                 Dict.get (_GetSubgraphDict g) group = Some members /\
                 In member members) <->
             In (member, group) (Dict.items (_group_dict g))).
  { intros member group. unfold _GetSubgraphDict.
    rewrite subgraph_fold. split; [|auto].
    intros [[members [Hget _]] | H]; [discriminate | assumption]. }
  assert (Hne : forall (group : string) (members : list string),
             Dict.get (_GetSubgraphDict g) group = Some members ->
             members <> []).
  { intros group members Hget. unfold _GetSubgraphDict in Hget.
    eapply subgraph_members_nonempty; [|exact Hget].
    intros v l H. discriminate. }
  split; [exact Hrev|]. split; [|exact Hne].
  intros group. split.
  - intros Hk. destruct (keys_get _ _ Hk) as [members Hget].
    destruct members as [|m members]; [now apply Hne in Hget|].
    exists m. apply Hrev. exists (m :: members).
    split; [assumption | now left].
  - intros [member Hin]. apply Hrev in Hin.
    destruct Hin as [members [Hget _]]. eapply get_keys; eauto.
Qed.

(** ** The lists handed to the writer *)

Lemma ungrouped_loop (g : Grapher) (sd : Dict.t (list string))
    (refids : list string) : forall acc,
  (forall refid, In refid refids -> In refid (Dict.keys (_ref_dict g))) ->
  exists classes,
    for_each refids
      (fun classes refid =>
         if Dict.mem sd refid then Ok classes
         else
           name <- subscript (_ref_dict g) refid ;;
           if _IncludeName (_target_namespace g) name
           then Ok (classes ++
                    [Writer.mkClass
                       (_GetShortName (_target_namespace g) name) name])
           else Ok classes)
      acc = Ok classes /\
    forall c,
      In c classes <->
      In c acc \/
      exists refid name,
        In refid refids /\
        Dict.get (_ref_dict g) refid = Some name /\
        Dict.mem sd refid = false /\
        _IncludeName (_target_namespace g) name = true /\
        c = Writer.mkClass (_GetShortName (_target_namespace g) name) name.
Proof.
  induction refids as [|refid refids IH]; intros acc Hkeys; cbn [for_each].
  - exists acc. split; [reflexivity|]. intros c. split; [auto|].
    intros [H | [r [n [[] _]]]]. assumption.
  - assert (Hkeys' : forall r, In r refids ->
                                 In r (Dict.keys (_ref_dict g)))
      by (intros r Hr; apply Hkeys; now right).
    destruct (keys_get _ refid (Hkeys refid (or_introl eq_refl)))
      as [name Hname].
    destruct (Dict.mem sd refid) eqn:Emem; cbn [bind].
    + destruct (IH acc Hkeys') as [classes [Hrun Hin]].
      exists classes. split; [assumption|]. intros c. rewrite Hin.
      split; [intros [H | [r [n [Hr H]]]]; [auto|];
              right; exists r, n; split; [now right | assumption]|].
      intros [H | [r [n [[<- | Hr] [H1 [H2 H3]]]]]]; [auto|congruence|].
      right. exists r, n. auto.
    + unfold subscript. rewrite Hname. cbn [bind].
      destruct (_IncludeName (_target_namespace g) name) eqn:Einc.
      * destruct (IH (acc ++
                      [Writer.mkClass
                         (_GetShortName (_target_namespace g) name) name])
                    Hkeys') as [classes [Hrun Hin]].
        exists classes. split; [assumption|]. intros c. rewrite Hin.
        rewrite in_app_iff. simpl. split.
        -- intros [[H | [H | []]] | [r [n [Hr H]]]]; [auto| |].
           ++ right. exists refid, name. repeat split; auto.
           ++ right. exists r, n. split; [now right | assumption].
        -- intros [H | [r [n [[<- | Hr] [H1 [H2 [H3 H4]]]]]]]; [auto| |].
           ++ left. right. left. congruence.
           ++ right. exists r, n. auto.
      * destruct (IH acc Hkeys') as [classes [Hrun Hin]].
        exists classes. split; [assumption|]. intros c. rewrite Hin.
        split; [intros [H | [r [n [Hr H]]]]; [auto|];
                right; exists r, n; split; [now right | assumption]|].
        intros [H | [r [n [[<- | Hr] [H1 [H2 [H3 H4]]]]]]]; [auto| |].
        -- congruence.
        -- right. exists r, n. auto.
Qed.

(** X5: [_CollectUngroupedClasses] never raises, and the list it returns
    holds, with short name and full name, exactly the registered entities,
    classes and groups alike, whose key is not a key of the reversed group
    dict and whose name passes the inclusion rule. *)
Theorem ungrouped_classes_are_the_keys_outside_the_subgraph_dict :
  forall (g : Grapher) (sd : Dict.t (list string)),
  exists classes,
    _CollectUngroupedClasses g sd = Ok classes /\
    forall c,
      In c classes <->
      exists refid name,
        Dict.get (_ref_dict g) refid = Some name /\
        Dict.mem sd refid = false /\
        _IncludeName (_target_namespace g) name = true /\
        c = Writer.mkClass (_GetShortName (_target_namespace g) name) name.
Proof.
  intros g sd. unfold _CollectUngroupedClasses.
  destruct (ungrouped_loop g sd (PyStr.sorted (Dict.keys (_ref_dict g))) [])
    as [classes [Hrun Hin]].
  - intros refid. apply SortedFacts.In_sorted.
  - exists classes. split; [assumption|]. intros c. rewrite Hin. split.
    + intros [[] | [r [n [_ H]]]]. eauto.
    + intros [r [n [H1 H2]]]. right. exists r, n. split; [|auto].
      apply SortedFacts.In_sorted. eapply get_keys; eauto.
Qed.

Lemma dependencies_loop (set_iter : PySet.t -> list PySet.elt) (g : Grapher)
    (refids : list string) : forall acc,
  (forall k, In k refids ->
             In k (Dict.keys (_dep_dict g)) /\ Dict.mem (_ref_dict g) k = true) ->
  exists deps,
    for_each refids
      (fun dependencies refid =>
         full_name <- subscript (_ref_dict g) refid ;;
         let name := _GetShortName (_target_namespace g) full_name in
         targets <- subscript (_dep_dict g) refid ;;
         let deps := flat_map (registered_short_name g) (set_iter targets) in
         Ok (dependencies ++
             [Writer.mkDependencies name (PyStr.sorted deps)]))
      acc = Ok (acc ++ deps) /\
    Forall2
      (fun d refid =>
         exists full_name targets,
           Dict.get (_ref_dict g) refid = Some full_name /\
           Dict.get (_dep_dict g) refid = Some targets /\
           d = Writer.mkDependencies
                 (_GetShortName (_target_namespace g) full_name)
                 (PyStr.sorted
                    (flat_map (registered_short_name g) (set_iter targets))))
      deps refids.
Proof.
  induction refids as [|refid refids IH]; intros acc Hok; cbn [for_each].
  - exists []. rewrite app_nil_r. split; [reflexivity | constructor].
  - destruct (Hok refid (or_introl eq_refl)) as [Hkey Hreg].
    apply mem_keys in Hreg.
    destruct (keys_get _ _ Hreg) as [full_name Hname].
    destruct (keys_get _ _ Hkey) as [targets Htargets].
    unfold subscript at 1 2. rewrite Hname, Htargets. cbn [bind].
    match goal with
    | |- context [for_each refids _ (acc ++ [?d])] =>
        destruct (IH (acc ++ [d])) as [deps [Hrun Hall]];
        [intros k Hk; apply Hok; now right|];
        exists (d :: deps)
    end.
    split.
    + rewrite <- app_assoc in Hrun. exact Hrun.
    + constructor; [eauto | assumption].
Qed.

(** X6: where every key of [_dep_dict] has a registered name,
    [_CollectDependencies] returns one entry for each key, in the sorted
    order of the keys: its label is the short name of the key, and its
    dependency labels are the short names of the registered targets in
    sorted order, however many targets are left. *)
Theorem dependencies_one_entry_per_source_key :
  forall (set_iter : PySet.t -> list PySet.elt) (g : Grapher),
    (forall k, In k (Dict.keys (_dep_dict g)) ->
               Dict.mem (_ref_dict g) k = true) ->
    exists deps,
      _CollectDependencies set_iter g = Ok deps /\
      Forall2
        (fun d refid =>
           exists full_name targets,
             Dict.get (_ref_dict g) refid = Some full_name /\
             Dict.get (_dep_dict g) refid = Some targets /\
             Writer.dep_label d
             = _GetShortName (_target_namespace g) full_name /\
             Writer.dependency_labels d
             = PyStr.sorted
                 (flat_map (registered_short_name g) (set_iter targets)))
        deps (PyStr.sorted (Dict.keys (_dep_dict g))) /\
      Forall (fun d => StronglySorted PyStr.le (Writer.dependency_labels d))
        deps.
Proof.
  intros set_iter g Hreg. unfold _CollectDependencies.
  destruct (dependencies_loop set_iter g
              (PyStr.sorted (Dict.keys (_dep_dict g))) [])
    as [deps [Hrun Hall]].
  - intros k Hk. apply (proj1 (SortedFacts.In_sorted _ _)) in Hk. auto.
  - exists deps. split; [exact Hrun|]. split.
    + eapply Forall2_impl; [|exact Hall].
      intros d refid [full_name [targets [H1 [H2 ->]]]].
      exists full_name, targets. auto.
    + clear Hrun. induction Hall as [|d refid deps refids Hd _ IH];
        constructor; [|assumption].
      destruct Hd as [full_name [targets [_ [_ ->]]]].
      apply SortedFacts.sorted_sorted.
Qed.

Lemma dependencies_one_entry_per_source_key_witness :
  (forall k, In k (Dict.keys (_dep_dict (ProcessXML two_types_dir None))) ->
             Dict.mem (_ref_dict (ProcessXML two_types_dir None)) k = true) /\
  exists deps,
    _CollectDependencies insertion_order (ProcessXML two_types_dir None)
    = Ok deps.
Proof.
  assert (H : forall k,
             In k (Dict.keys (_dep_dict (ProcessXML two_types_dir None))) ->
             Dict.mem (_ref_dict (ProcessXML two_types_dir None)) k = true).
  { intros k [<- | []]. reflexivity. }
  split; [exact H|].
  destruct (dependencies_one_entry_per_source_key insertion_order
              (ProcessXML two_types_dir None) H) as [deps [Hrun _]].
  exists deps. exact Hrun.
Defined.

(** The inner loop of [_CollectGroups], over the members of one group. *)
Lemma members_loop (g : Grapher) (members : list string) : forall acc,
  match
    for_each members
      (fun mc member =>
         name <- subscript (_ref_dict g) member ;;
         if _IncludeName (_target_namespace g) name
         then Ok (mc ++ [Writer.mkClass
                           (_GetShortName (_target_namespace g) name)
                           name])
         else Ok mc)
      acc
  with
  | Ok _ => forall m, In m members -> Dict.mem (_ref_dict g) m = true
  | Raise e =>
      exists m, e = KeyError m /\ In m members /\
                Dict.get (_ref_dict g) m = None
  end.
Proof.
  induction members as [|member members IH]; intros acc; cbn [for_each].
  - intros m [].
  - unfold subscript at 1.
    destruct (Dict.get (_ref_dict g) member) as [name|] eqn:E; cbn [bind].
    + assert (Hmem : Dict.mem (_ref_dict g) member = true)
        by (unfold Dict.mem; now rewrite E).
      destruct (_IncludeName (_target_namespace g) name); cbn [bind];
        match goal with
        | |- match for_each members ?body ?a with _ => _ end =>
            specialize (IH a); destruct (for_each members body a)
        end;
        try (intros m [<- | Hm]; now auto);
        destruct IH as [m [He [Hin Hnone]]]; exists m; simpl; auto.
    + exists member. simpl. auto.
Qed.

Lemma groups_loop (g : Grapher) (sd : Dict.t (list string))
    (groups : list string) : forall acc,
  (forall k, In k groups -> In k (Dict.keys sd)) ->
  match
    for_each groups
      (fun groups group =>
         group_name <- subscript (_ref_dict g) group ;;
         members <- subscript sd group ;;
         member_classes <-
           for_each (PyStr.sorted members)
             (fun mc member =>
                name <- subscript (_ref_dict g) member ;;
                if _IncludeName (_target_namespace g) name
                then Ok (mc ++ [Writer.mkClass
                                  (_GetShortName (_target_namespace g) name)
                                  name])
                else Ok mc)
             [] ;;
         Ok (groups ++ [Writer.mkGroup group_name member_classes]))
      acc
  with
  | Ok result =>
      length result = length acc + length groups /\
      forall group members m,
        In group groups -> Dict.get sd group = Some members -> In m members ->
        Dict.mem (_ref_dict g) group = true /\
        Dict.mem (_ref_dict g) m = true
  | Raise e =>
      exists k,
        e = KeyError k /\ Dict.get (_ref_dict g) k = None /\
        (In k groups \/
         exists group members,
           In group groups /\ Dict.get sd group = Some members /\
           In k members)
  end.
Proof.
  induction groups as [|group groups IH]; intros acc Hkeys; cbn [for_each].
  - split; [simpl; lia | intros ? ? ? []].
  - assert (Hkeys' : forall k, In k groups -> In k (Dict.keys sd))
      by (intros k Hk; apply Hkeys; now right).
    destruct (keys_get _ _ (Hkeys group (or_introl eq_refl)))
      as [members Hmembers].
    unfold subscript at 1 2. rewrite Hmembers.
    destruct (Dict.get (_ref_dict g) group) as [group_name|] eqn:E;
      cbn [bind]; [|exists group; simpl; auto].
    pose proof (members_loop g (PyStr.sorted members) []) as Hinner.
    match type of Hinner with
    | match ?run with _ => _ end => destruct run as [classes|e]
    end; cbn [bind].
    + specialize (IH (acc ++ [Writer.mkGroup group_name classes]) Hkeys').
      match goal with
      | |- match ?run with _ => _ end => destruct run as [result|e]
      end.
      2:{ destruct IH as [k [He [Hnone Hwhere]]]. exists k.
          split; [assumption|]. split; [assumption|].
          destruct Hwhere as [H | [grp [mem [H1 H2]]]]; [left; now right|].
          right. exists grp, mem. split; [now right | assumption]. }
      destruct IH as [Hlen Hreg]. split.
      * rewrite Hlen, length_app. simpl. lia.
      * intros grp mem m [<- | Hgrp] Hget Hm; [|eauto].
        rewrite Hmembers in Hget. inversion Hget; subst mem. split.
        -- unfold Dict.mem. now rewrite E.
        -- apply Hinner. now apply SortedFacts.In_sorted.
    + destruct Hinner as [m [He [Hm Hnone]]]. exists m.
      split; [assumption|]. split; [assumption|].
      right. exists group, members. split; [now left|].
      split; [assumption | now apply SortedFacts.In_sorted].
Qed.



(** ** The propagation pass *)

Lemma propagate_groups_returns (depth : nat) (gd0 nd : Dict.t string) :
  depth_suffices depth gd0 nd = true ->
  forall items gd,
    incl items nd ->
    (forall r, direct_group gd0 r <> None -> direct_group gd r <> None) ->
    exists gd1, for_each items (propagate_item depth nd) gd = Ok gd1.
Proof.
  intros Hdepth.
  induction items as [|[inner outer] items IH]; intros gd Hincl Hcover;
    [now exists gd|].
  assert (Hin : In (inner, outer) nd) by (apply Hincl; now left).
  destruct (outer_resolves depth gd0 nd Hdepth _ _ Hin) as [res0 Hget0].
  destruct (_GetGroup_grouped gd0 gd nd depth Hcover _ _ Hget0)
    as [res Hget].
  cbn [for_each].
  destruct (propagate_item depth nd gd (inner, outer)) as [gd'|e] eqn:Estep.
  - cbn [bind]. apply IH; [intros e He; apply Hincl; now right|].
    apply propagate_item_cases in Estep.
    destruct Estep as [-> | [grp [-> [Htruthy _]]]]; [assumption|].
    intros r Hr. rewrite direct_group_set by assumption.
    destruct (String.eqb inner r); [discriminate | now apply Hcover].
  - cbn [propagate_item] in Estep. rewrite Hget in Estep.
    destruct res; discriminate.
Qed.

(** X8: a pass of [_FindNestedClassGroups] returns whenever [_GetGroup]
    returns, within the recursion depth, for every enclosing entity in the
    group dict the pass starts from: the writes of the pass never make a
    walk longer. *)
Theorem propagation_returns_within_depth :
  forall (depth : nat) (gd0 nd : Dict.t string),
    depth_suffices depth gd0 nd = true ->
    exists gd1, propagate_groups depth nd gd0 = Ok gd1.
Proof.
  intros depth gd0 nd Hdepth. unfold propagate_groups.
  apply (propagate_groups_returns depth gd0 nd Hdepth);
    [apply incl_refl | auto].
Qed.

Lemma propagation_returns_within_depth_witness :
  depth_suffices 10 outermost_grouped inside_out_nesting = true /\
  exists gd1,
    propagate_groups 10 inside_out_nesting outermost_grouped = Ok gd1.
Proof.
  split; [reflexivity|].
  apply (propagation_returns_within_depth 10 outermost_grouped
           inside_out_nesting).
  reflexivity.
Defined.

(** X9: a pass of [_FindNestedClassGroups] that returns has left the group
    of every entity that is not a nested one as it was, has removed no
    entity from the group dict, and has put entities only into groups that
    the group dict had before. *)
Theorem propagation_writes_nested_entities_only :
  forall (depth : nat) (nd gd0 gd1 : Dict.t string),
    propagate_groups depth nd gd0 = Ok gd1 ->
    (forall k, ~ In k (Dict.keys nd) -> Dict.get gd1 k = Dict.get gd0 k) /\
    (forall k, In k (Dict.keys gd0) -> In k (Dict.keys gd1)) /\
    (forall k v, Dict.get gd1 k = Some v ->
                 exists k', Dict.get gd0 k' = Some v).
Proof.
  intros depth nd gd0 gd1 Hrun. now apply (propagate_frame depth nd nd).
Qed.

Lemma propagation_writes_nested_entities_only_witness :
  propagate_groups 1000 [("kC", "kB"); ("kB", "kA")]%string
    [("kA", "g1"); ("kB", "g2")]%string
  = Ok [("kA", "g1"); ("kB", "g1"); ("kC", "g2")]%string /\
  Dict.get [("kA", "g1"); ("kB", "g1"); ("kC", "g2")]%string "kA"
  = Dict.get [("kA", "g1"); ("kB", "g2")]%string "kA".
Proof.
  assert (H : propagate_groups 1000 [("kC", "kB"); ("kB", "kA")]%string
                [("kA", "g1"); ("kB", "g2")]%string
              = Ok [("kA", "g1"); ("kB", "g1"); ("kC", "g2")]%string)
    by reflexivity.
  split; [exact H|].
  apply (proj1 (propagation_writes_nested_entities_only 1000 _ _ _ H)).
  simpl. intros [E | [E | []]]; discriminate.
Defined.

Lemma _GetGroup_raises_RecursionError (gd nd : Dict.t string) (d : nat) :
  forall x e, _GetGroup d gd nd x = Raise e -> e = RecursionError.
Proof.
  induction d as [|d IH]; intros x e H; [now inversion H|].
  destruct x as [r|]; [|discriminate].
  rewrite _GetGroup_step in H.
  destruct (direct_group gd r); [discriminate | eauto].
Qed.

Lemma _GetGroup_on_cycle (gd nd : Dict.t string) (P : string -> Prop) :
  (forall r, P r -> direct_group gd r = None /\
                    exists p, Dict.get nd r = Some p /\ P p) ->
  forall d r, P r -> _GetGroup d gd nd (Some r) = Raise RecursionError.
Proof.
  intros Hclosed. induction d as [|d IH]; intros r Hr; [reflexivity|].
  rewrite _GetGroup_step.
  destruct (Hclosed r Hr) as [Hnone [p [Hp HPp]]].
  rewrite Hnone, Hp. now apply IH.
Qed.

(** X10: where the nesting relation has a set of entities without group
    that is closed under "the enclosing entity of", that is a nesting cycle
    none of whose entities is in a group, the pass raises [RecursionError]
    whatever the recursion depth. *)
Theorem nesting_cycle_raises_RecursionError :
  forall (depth : nat) (nd gd : Dict.t string) (P : string -> Prop),
    Dict.wf nd ->
    (forall r, P r -> direct_group gd r = None /\
                      exists p, Dict.get nd r = Some p /\ P p) ->
    (exists r, P r) ->
    propagate_groups depth nd gd = Raise RecursionError.
Proof.
  intros depth nd gd P Hwf Hclosed [r0 Hr0]. unfold propagate_groups.
  assert (Hloop : forall items gd,
             incl items nd ->
             (forall r, P r -> direct_group gd r = None) ->
             (exists inner outer, In (inner, outer) items /\ P outer) ->
             for_each items (propagate_item depth nd) gd
             = Raise RecursionError).
  { assert (Hparent : forall r, P r -> exists p, Dict.get nd r = Some p /\ P p)
      by (intros r Hr; now apply Hclosed).
    induction items as [|[inner outer] items IH];
      intros gd' Hincl Hnone [i [o [Hin Ho]]]; [destruct Hin|].
    assert (Hraise : forall r, P r ->
                       _GetGroup depth gd' nd (Some r) = Raise RecursionError).
    { apply _GetGroup_on_cycle. intros r Hr. split; auto. }
    cbn [for_each propagate_item].
    destruct (_GetGroup depth gd' nd (Some outer)) as [res|e] eqn:E.
    - assert (Hnot : ~ P outer) by (intros H; rewrite (Hraise _ H) in E;
                                     discriminate).
      assert (Hinner : ~ P inner).
      { intros H. destruct (Hparent _ H) as [p [Hp HPp]].
        rewrite (DictFacts.In_get nd inner outer Hwf) in Hp
          by (apply Hincl; now left).
        inversion Hp; subst p. contradiction. }
      cbn [bind].
      assert (Htail : exists inner' outer',
                 In (inner', outer') items /\ P outer').
      { destruct Hin as [Heq | Hin]; [|eauto].
        inversion Heq; subst. contradiction. }
      assert (Hincl' : incl items nd)
        by (intros x Hx; apply Hincl; now right).
      destruct res as [grp|]; apply IH; auto.
      intros r Hr.
      assert (Htruthy : PyStr.truthy grp = true).
      { eapply _GetGroup_value;
          [eapply _GetGroup_resolves; eauto | reflexivity]. }
      rewrite direct_group_set by assumption.
      destruct (String.eqb inner r) eqn:Eq; [|auto].
      apply String.eqb_eq in Eq. subst r. contradiction.
    - apply _GetGroup_raises_RecursionError in E. now subst e. }
  apply Hloop; [apply incl_refl | intros r Hr; now apply Hclosed |].
  destruct (Hclosed _ Hr0) as [_ [p [Hp HPp]]].
  exists r0, p. split; [now apply DictFacts.get_In | assumption].
Qed.

Lemma nesting_cycle_raises_RecursionError_witness :
  Dict.wf cyclic_nesting /\
  propagate_groups 1000 cyclic_nesting Dict.empty = Raise RecursionError.
Proof.
  assert (Hwf : Dict.wf cyclic_nesting).
  { repeat constructor; simpl; intuition discriminate. }
  split; [exact Hwf|].
  apply (nesting_cycle_raises_RecursionError 1000 cyclic_nesting Dict.empty
           (fun r => r = "a" \/ r = "b")%string Hwf).
  - intros r [-> | ->]; (split; [reflexivity|]).
    + exists "b"%string. split; [reflexivity | now right].
    + exists "a"%string. split; [reflexivity | now left].
  - exists "a"%string. now left.
Defined.

(** ** What a run of [ProcessXML] builds *)

Section Reachable.

Variable dir : XmlDirectory.

Lemma reachable_ProcessGroupFile (g : Grapher) (refid : string) :
  reachable g -> Dict.mem (_ref_dict g) refid = true ->
  reachable (_ProcessGroupFile dir g refid).
Proof.
  intros Hg Hreg. unfold _ProcessGroupFile.
  destruct (compound_xml dir refid) as [root|]; [|assumption].
  apply (fold_left_inv
           (fun g => reachable g /\ Dict.mem (_ref_dict g) refid = true));
    [|now split].
  intros a x [Ha Hmem]. split; [now apply reach_group | exact Hmem].
Qed.

Lemma reachable_ProcessClassFunction (g : Grapher) class_refid func :
  reachable g -> reachable (_ProcessClassFunction g class_refid func).
Proof.
  intros Hg. unfold _ProcessClassFunction.
  apply fold_left_inv; [intros; now apply reach_edge|].
  apply fold_left_inv; [|assumption].
  intros a [r|] Ha; [|assumption].
  destruct (PyStr.truthy r); [now apply reach_edge | assumption].
Qed.

Lemma reachable_ProcessClassMember (g : Grapher) class_refid member :
  reachable g -> reachable (_ProcessClassMember g class_refid member).
Proof.
  intros Hg. unfold _ProcessClassMember.
  destruct (String.eqb (member_kind member) "variable").
  - destruct (member_type member); [now apply reach_edge | assumption].
  - destruct (String.eqb (member_kind member) "function"); [|assumption].
    apply reachable_ProcessClassFunction.
    destruct (member_type member); [now apply reach_edge | assumption].
Qed.

Lemma reachable_ProcessClassFile (g : Grapher) (refid : string) :
  reachable g -> Dict.mem (_ref_dict g) refid = true ->
  reachable (_ProcessClassFile dir g refid).
Proof.
  intros Hg Hreg. unfold _ProcessClassFile.
  destruct (compound_xml dir refid) as [root|]; [|assumption].
  apply fold_left_inv;
    [intros; now apply reachable_ProcessClassMember|].
  apply (fold_left_inv
           (fun g => reachable g /\ Dict.mem (_ref_dict g) refid = true)
           _ (innerclasses root)
           (fun a x (H : reachable a /\
                         Dict.mem (_ref_dict a) refid = true) =>
              conj (reach_nested a x refid (proj1 H) (proj2 H)) (proj2 H))).
  apply (fold_left_inv
           (fun g => reachable g /\ Dict.mem (_ref_dict g) refid = true));
    [|now split].
  intros a x [Ha Hmem]. destruct (baseref_text x) as [name|]; [|now split].
  destruct (_IncludeName (_target_namespace a) name); [|now split].
  split; [now apply reach_edge | exact Hmem].
Qed.

(** Every grapher that [ProcessXML] returns is a reachable one. *)
Lemma reachable_ProcessXML (ns : option string) :
  reachable (ProcessXML dir ns).
Proof.
  unfold ProcessXML, _ProcessIndexFile.
  destruct (index_xml dir) as [root|]; [|constructor].
  apply fold_left_inv; [|constructor].
  intros a c Ha.
  destruct (class_like_or_group (compound_kind c)); [|assumption].
  assert (Hreg : Dict.mem
                   (_ref_dict
                      (with_ref_dict a
                         (Dict.set (_ref_dict a) (compound_refid c)
                            (compound_name c))))
                   (compound_refid c) = true).
  { cbn. unfold Dict.mem. now rewrite DictFacts.get_set_same. }
  pose proof (reach_register a (compound_refid c) (compound_name c) Ha)
    as Ha'.
  destruct (String.eqb (compound_kind c) "group").
  - now apply reachable_ProcessGroupFile.
  - match goal with |- reachable (if ?b then _ else _) => destruct b end;
      [now apply reachable_ProcessClassFile | assumption].
Qed.

End Reachable.

Lemma mem_set {V : Type} (d : Dict.t V) (k k' : string) (v : V) :
  Dict.mem d k' = true -> Dict.mem (Dict.set d k v) k' = true.
Proof.
  unfold Dict.mem. rewrite DictFacts.get_set.
  destruct (String.eqb k k'); auto.
Qed.

Lemma reachable_dep_inv (g : Grapher) :
  reachable g -> dep_inv (_dep_dict g).
Proof.
  induction 1; cbn; try assumption.
  - apply dep_inv_empty.
  - now apply dep_inv_add.
  - now apply dep_inv_add.
Qed.

Lemma reachable_registered (g : Grapher) :
  reachable g ->
  (forall member group,
      In (member, group) (Dict.items (_group_dict g)) ->
      Dict.mem (_ref_dict g) group = true) /\
  (forall inner outer,
      In (inner, outer) (Dict.items (_nested_dict g)) ->
      Dict.mem (_ref_dict g) outer = true /\
      (inner <> outer ->
       In (outer, Some inner) (edges (_dep_dict g)))).
Proof.
  intros Hg.
  induction Hg as [ns'|g refid name Hg [IHg IHn]|g member group Hg [IHg IHn] Hreg
                  |g f t Hg [IHg IHn]|g inner outer Hg [IHg IHn] Hreg].
  - split; intros ? ? [].
  - split; cbn.
    + intros m grp H. apply mem_set. eauto.
    + intros i o H. destruct (IHn _ _ H). split; [now apply mem_set | auto].
  - split; cbn; [|exact IHn].
    intros m grp H. apply DictFacts.In_set in H.
    destruct H as [[-> ->] | H]; eauto.
  - split; cbn; [exact IHg|].
    intros i o H. destruct (IHn _ _ H) as [H1 H2]. split; [assumption|].
    intros Hne. apply edges_add_dependency;
      [now apply reachable_dep_inv | auto].
  - split; cbn; [exact IHg|].
    intros i o H. apply DictFacts.In_set in H.
    destruct H as [[-> ->] | H].
    + split; [assumption|]. intros Hne.
      apply edges_add_dependency; [now apply reachable_dep_inv|].
      right. split; [reflexivity | congruence].
    + destruct (IHn _ _ H) as [H1 H2]. split; [assumption|].
      intros Hne. apply edges_add_dependency;
        [now apply reachable_dep_inv | auto].
Qed.

(** X11: in the grapher that [ProcessXML] returns, every group that an
    entity is a member of and every class that an entity is nested in has
    a registered name, and a class that encloses another one has an edge
    to it. *)
Theorem groups_and_enclosing_classes_are_registered :
  forall (dir : XmlDirectory) (ns : option string),
    let g := ProcessXML dir ns in
    (forall member group,
        In (member, group) (Dict.items (_group_dict g)) ->
        Dict.mem (_ref_dict g) group = true) /\
    (forall inner outer,
        In (inner, outer) (Dict.items (_nested_dict g)) ->
        Dict.mem (_ref_dict g) outer = true /\
        (inner <> outer ->
         In (outer, Some inner) (edges (_dep_dict g)))).
Proof.
  intros dir ns g. apply reachable_registered.
  apply reachable_ProcessXML.
Qed.


(** ** The registry *)

Section Registry.

Variable dir : XmlDirectory.

Lemma ref_dict_ProcessGroupFile (g : Grapher) (refid : string) :
  _ref_dict (_ProcessGroupFile dir g refid) = _ref_dict g.
Proof.
  unfold _ProcessGroupFile.
  destruct (compound_xml dir refid) as [root|]; [|reflexivity].
  apply (fold_left_inv (fun g' => _ref_dict g' = _ref_dict g));
    [|reflexivity].
  intros a x Ha. exact Ha.
Qed.

Lemma ref_dict_ProcessClassFunction (g : Grapher) class_refid func :
  _ref_dict (_ProcessClassFunction g class_refid func) = _ref_dict g.
Proof.
  unfold _ProcessClassFunction.
  apply (fold_left_inv (fun g' => _ref_dict g' = _ref_dict g));
    [intros a x Ha; exact Ha|].
  apply (fold_left_inv (fun g' => _ref_dict g' = _ref_dict g));
    [|reflexivity].
  intros a [r|] Ha; [|exact Ha]. destruct (PyStr.truthy r); exact Ha.
Qed.

Lemma ref_dict_ProcessClassMember (g : Grapher) class_refid member :
  _ref_dict (_ProcessClassMember g class_refid member) = _ref_dict g.
Proof.
  unfold _ProcessClassMember.
  destruct (String.eqb (member_kind member) "variable").
  - now destruct (member_type member).
  - destruct (String.eqb (member_kind member) "function"); [|reflexivity].
    rewrite ref_dict_ProcessClassFunction. now destruct (member_type member).
Qed.

Lemma ref_dict_ProcessClassFile (g : Grapher) (refid : string) :
  _ref_dict (_ProcessClassFile dir g refid) = _ref_dict g.
Proof.
  unfold _ProcessClassFile.
  destruct (compound_xml dir refid) as [root|]; [|reflexivity].
  apply (fold_left_inv (fun g' => _ref_dict g' = _ref_dict g)).
  { intros a x Ha. now rewrite ref_dict_ProcessClassMember. }
  apply (fold_left_inv (fun g' => _ref_dict g' = _ref_dict g));
    [intros a x Ha; exact Ha|].
  apply (fold_left_inv (fun g' => _ref_dict g' = _ref_dict g));
    [|reflexivity].
  intros a x Ha. destruct (baseref_text x) as [name|]; [|exact Ha].
  destruct (_IncludeName (_target_namespace a) name); exact Ha.
Qed.

(** The registry after the index pass, whatever the target namespace. *)
Lemma ref_dict_index (root : list Compound) :
  forall g,
    _ref_dict
      (fold_left
         (fun g compound =>
            let refid := compound_refid compound in
            let kind := compound_kind compound in
            let name := compound_name compound in
            if class_like_or_group kind then
              let g1 := with_ref_dict g (Dict.set (_ref_dict g) refid name) in
              if String.eqb kind "group" then _ProcessGroupFile dir g1 refid
              else if _IncludeName (_target_namespace g1) name
                   then _ProcessClassFile dir g1 refid
                   else g1
            else g)
         root g)
    = fold_left
        (fun d compound =>
           if class_like_or_group (compound_kind compound)
           then Dict.set d (compound_refid compound) (compound_name compound)
           else d)
        root (_ref_dict g).
Proof.
  induction root as [|c root IH]; intros g; cbn [fold_left]; [reflexivity|].
  rewrite IH. f_equal.
  destruct (class_like_or_group (compound_kind c)); [|reflexivity].
  destruct (String.eqb (compound_kind c) "group").
  - now rewrite ref_dict_ProcessGroupFile.
  - match goal with |- _ref_dict (if ?b then _ else _) = _ => destruct b end;
      [now rewrite ref_dict_ProcessClassFile | reflexivity].
Qed.

Lemma keys_set_iff {V : Type} (d : Dict.t V) (k r : string) (v : V) :
  In r (Dict.keys (Dict.set d k v)) <-> r = k \/ In r (Dict.keys d).
Proof.
  destruct (in_dec string_dec k (Dict.keys d)) as [Hin | Hnotin].
  - rewrite DictFacts.keys_set_present by assumption.
    split; [auto | intros [-> | H]; auto].
  - rewrite DictFacts.keys_set_absent by assumption.
    rewrite in_app_iff. simpl. intuition.
Qed.

Lemma registered_fold (root : list Compound) : forall d r,
  In r (Dict.keys
          (fold_left
             (fun d compound =>
                if class_like_or_group (compound_kind compound)
                then Dict.set d (compound_refid compound)
                       (compound_name compound)
                else d)
             root d)) <->
  In r (Dict.keys d) \/
  exists c, In c root /\ compound_refid c = r /\
            class_like_or_group (compound_kind c) = true.
Proof.
  induction root as [|c root IH]; intros d r; cbn [fold_left].
  - split; [auto | intros [H | [c [[] _]]]; assumption].
  - rewrite IH. destruct (class_like_or_group (compound_kind c)) eqn:E.
    + rewrite keys_set_iff. split.
      * intros [[-> | H] | [c' [H1 H2]]]; [right; exists c; simpl; auto
                                          | auto
                                          | right; exists c'; simpl; tauto].
      * intros [H | [c' [[<- | H1] [H2 H3]]]]; [auto | auto |].
        right. exists c'. auto.
    + split.
      * intros [H | [c' [H1 H2]]]; [auto | right; exists c'; simpl; tauto].
      * intros [H | [c' [[<- | H1] [H2 H3]]]]; [auto | congruence |].
        right. exists c'. auto.
Qed.

(** X12: the registry that [ProcessXML] builds does not depend on the
    target namespace: an entity is registered exactly when the index
    declares a compound with its key whose kind is class, struct,
    interface or group, whether or not its name passes the inclusion
    rule. *)
Theorem registry_is_the_index_whatever_the_namespace :
  forall (ns ns' : option string) (r : string),
    _ref_dict (ProcessXML dir ns) = _ref_dict (ProcessXML dir ns') /\
    (Dict.mem (_ref_dict (ProcessXML dir ns)) r = true <->
     exists root c,
       index_xml dir = Some root /\ In c root /\ compound_refid c = r /\
       class_like_or_group (compound_kind c) = true).
Proof.
  intros ns ns' r. unfold ProcessXML, _ProcessIndexFile.
  destruct (index_xml dir) as [root|].
  - rewrite !ref_dict_index. split; [reflexivity|].
    rewrite mem_keys, registered_fold. cbn. split.
    + intros [[] | [c H]]. exists root, c. auto.
    + intros [root' [c [Heq H]]]. inversion Heq; subst root'. eauto.
  - split; [reflexivity|]. cbn. split; [discriminate|].
    intros [root [c [H _]]]. discriminate.
Qed.

End Registry.


(** ** Runs that complete *)

Lemma reachable_grapher_inv (g : Grapher) :
  reachable g -> grapher_inv g.
Proof.
  induction 1.
  - apply grapher_inv_new.
  - now apply grapher_inv_ref.
  - now apply grapher_inv_group.
  - now apply grapher_inv_AddDependency.
  - apply grapher_inv_nested. now apply grapher_inv_AddDependency.
Qed.

Lemma propagate_wf (depth : nat) (nd : Dict.t string)
    (items : list (string * string)) : forall gd gd1,
  for_each items (propagate_item depth nd) gd = Ok gd1 ->
  Dict.wf gd -> Dict.wf gd1.
Proof.
  induction items as [|[inner outer] items IH]; intros gd gd1 Hrun Hwf.
  - inversion Hrun; now subst.
  - cbn [for_each] in Hrun.
    destruct (propagate_item depth nd gd (inner, outer)) as [gd'|e] eqn:Estep;
      [|discriminate].
    cbn [bind] in Hrun. apply (IH _ _ Hrun).
    apply propagate_item_cases in Estep.
    destruct Estep as [-> | [grp [-> _]]];
      [assumption | now apply DictFacts.wf_set].
Qed.

(** The part of [OutputDotGraph] before the writer returns a graph when
    the keys of the three relations are registered and the nesting is
    within the recursion depth. *)
Lemma assemble_returns (set_iter : PySet.t -> list PySet.elt) (depth : nat)
    (g : Grapher) :
  reachable g ->
  (forall k, In k (Dict.keys (_dep_dict g)) ->
             Dict.mem (_ref_dict g) k = true) ->
  (forall k, In k (Dict.keys (_group_dict g)) ->
             Dict.mem (_ref_dict g) k = true) ->
  (forall k, In k (Dict.keys (_nested_dict g)) ->
             Dict.mem (_ref_dict g) k = true) ->
  depth_suffices depth (_group_dict g) (_nested_dict g) = true ->
  exists view, assemble set_iter depth g = Ok view.
Proof.
  intros Hreach Hdep Hgrp Hnest Hdepth.
  destruct (propagate_groups_returns depth (_group_dict g) (_nested_dict g)
              Hdepth (_nested_dict g) (_group_dict g) (incl_refl _))
    as [gd1 Hrun]; [auto|].
  assert (Hrun' : propagate_groups depth (_nested_dict g) (_group_dict g)
                  = Ok gd1) by exact Hrun.
  destruct (reachable_grapher_inv g Hreach) as [_ [_ [_ Hgwf]]].
  pose proof (propagate_wf depth _ _ _ _ Hrun Hgwf) as Hwf1.
  destruct (propagate_frame depth (_nested_dict g) (_nested_dict g) _ _ Hrun)
    as [Hout [_ Hvals]].
  assert (Hmember : forall m grp, In (m, grp) gd1 ->
                                  Dict.mem (_ref_dict g) m = true /\
                                  Dict.mem (_ref_dict g) grp = true).
  { intros m grp Hin.
    pose proof (DictFacts.In_get gd1 m grp Hwf1 Hin) as Hget. split.
    - destruct (in_dec string_dec m (Dict.keys (_nested_dict g)))
        as [Hn | Hn]; [now apply Hnest|].
      apply Hgrp. rewrite (Hout m Hn) in Hget. eapply get_keys; eauto.
    - destruct (Hvals _ _ Hget) as [k' Hk'].
      apply (proj1 (reachable_registered g Hreach) k' grp).
      now apply DictFacts.get_In. }
  unfold assemble, _FindNestedClassGroups. rewrite Hrun'. cbn [bind].
  set (g1 := with_group_dict g gd1).
  assert (Hsd : forall m grp,
             (exists members,
                 Dict.get (_GetSubgraphDict g1) grp = Some members /\
                 In m members) ->
             In (m, grp) gd1).
  { intros m grp H. unfold _GetSubgraphDict in H.
    apply subgraph_fold in H.
    destruct H as [[members [Hget _]] | H]; [discriminate | exact H]. }
  (* the clusters *)
  unfold _CollectGroups.
  pose proof (groups_loop g1 (_GetSubgraphDict g1)
                (PyStr.sorted (Dict.keys (_GetSubgraphDict g1))) []) as Hloop.
  match type of Hloop with
  | _ -> match ?run with _ => _ end => destruct run as [groups|e]
  end.
  2:{ exfalso.
      destruct Hloop as [k [_ [Hnone Hwhere]]];
        [intros k; apply SortedFacts.In_sorted|].
      assert (Hk : Dict.mem (_ref_dict g) k = true).
      { destruct Hwhere as [Hk | [grp [members [_ [Hget Hk]]]]].
        - apply (proj1 (SortedFacts.In_sorted _ _)) in Hk.
          destruct (keys_get _ _ Hk) as [members Hget].
          assert (Hne : members <> []).
          { unfold _GetSubgraphDict in Hget.
            eapply subgraph_members_nonempty; [|exact Hget].
            intros v l H. discriminate. }
          destruct members as [|m members]; [congruence|].
          apply (Hmember m k). apply Hsd. exists (m :: members).
          split; [assumption | now left].
        - apply (Hmember k grp). apply Hsd. eauto. }
      unfold Dict.mem in Hk. cbn in Hnone. now rewrite Hnone in Hk. }
  clear Hloop. cbn [bind].
  (* the other classes *)
  unfold _CollectUngroupedClasses.
  destruct (ungrouped_loop g1 (_GetSubgraphDict g1)
              (PyStr.sorted (Dict.keys (_ref_dict g1))) [])
    as [classes [Hclasses _]]; [intros k; apply SortedFacts.In_sorted|].
  rewrite Hclasses. cbn [bind].
  (* the edges *)
  destruct (dependencies_loop set_iter g1
              (PyStr.sorted (Dict.keys (_dep_dict g1))) [])
    as [deps [Hdeps _]].
  { intros k Hk. apply (proj1 (SortedFacts.In_sorted _ _)) in Hk.
    split; [exact Hk | now apply Hdep]. }
  assert (Hdeps' : _CollectDependencies set_iter g1 = Ok ([] ++ deps))
    by exact Hdeps.
  rewrite Hdeps'. cbn [bind]. eexists. reflexivity.
Qed.

(** X13: neither [ReportCycles] nor the part of [OutputDotGraph] before
    the writer raises [KeyError] or [RecursionError] whenever every source
    of an edge, every member of a group and every nested class has a
    registered name and [_GetGroup] returns within the recursion depth:
    the cycle report is printed to its end and the writer is handed the
    three lists. *)
Theorem no_lookup_error_when_keys_are_registered :
  forall (set_iter : PySet.t -> list PySet.elt) (depth : nat)
         (ns : option string) (dir : XmlDirectory),
    let g := ProcessXML dir ns in
    iteration_order set_iter ->
    (forall k, In k (Dict.keys (_dep_dict g)) ->
               Dict.mem (_ref_dict g) k = true) ->
    (forall k, In k (Dict.keys (_group_dict g)) ->
               Dict.mem (_ref_dict g) k = true) ->
    (forall k, In k (Dict.keys (_nested_dict g)) ->
               Dict.mem (_ref_dict g) k = true) ->
    depth_suffices depth (_group_dict g) (_nested_dict g) = true ->
    snd (ReportCycles set_iter g) = None /\
    exists view, assemble set_iter depth g = Ok view.
Proof.
  intros set_iter depth ns dir g Horder Hdep Hgrp Hnest Hdepth.
  pose proof (reachable_ProcessXML dir ns) as Hreach. fold g in Hreach.
  split.
  - apply (ReportCycles_complete_when_registered set_iter Horder g).
    + apply (reachable_grapher_inv g Hreach).
    + intros a b [Hab Hba]. apply In_edges in Hab, Hba.
      destruct Hab as [sa [Ha _]]. destruct Hba as [sb [Hb _]].
      split; apply Hdep.
      * change a with (fst (a, sa)). now apply in_map.
      * change b with (fst (b, sb)). now apply in_map.
  - exact (assemble_returns set_iter depth g Hreach Hdep Hgrp Hnest Hdepth).
Qed.

Lemma no_lookup_error_when_keys_are_registered_witness :
  iteration_order insertion_order /\
  snd (ReportCycles insertion_order (ProcessXML outer_inner_dir None))
  = None /\
  exists view,
    assemble insertion_order 10 (ProcessXML outer_inner_dir None) = Ok view.
Proof.
  assert (Horder : iteration_order insertion_order)
    by (intros s; apply Permutation_refl).
  split; [exact Horder|].
  apply (no_lookup_error_when_keys_are_registered insertion_order 10 None
           outer_inner_dir Horder).
  - intros k [<- | []]. reflexivity.
  - intros k [<- | []]. reflexivity.
  - intros k [<- | []]. reflexivity.
  - reflexivity.
Defined.


(** ** Witnesses and the cycle report of a run *)

Lemma ReportCycles_sound_witness :
  iteration_order insertion_order /\
  In "*** Cycle between A and B"%string
    (fst (ReportCycles insertion_order (ProcessXML mutual_dir None))) /\
  exists a b,
    two_cycle (ProcessXML mutual_dir None) a b /\
    cycle_line (ProcessXML mutual_dir None) a b
    = Ok "*** Cycle between A and B"%string.
Proof.
  assert (Horder : iteration_order insertion_order)
    by (intros s; apply Permutation_refl).
  assert (Hline : In "*** Cycle between A and B"%string
                    (fst (ReportCycles insertion_order
                            (ProcessXML mutual_dir None))))
    by (simpl; auto).
  split; [exact Horder|]. split; [exact Hline|].
  apply (ReportCycles_sound insertion_order Horder
           (ProcessXML mutual_dir None) _ Hline).
Defined.



Lemma _CollectDependencies_raises_witness :
  (exists k, In k (Dict.keys (_dep_dict (ProcessXML caller_dir None))) /\
             Dict.get (_ref_dict (ProcessXML caller_dir None)) k = None) /\
  exists k,
    In k (Dict.keys (_dep_dict (ProcessXML caller_dir None))) /\
    Dict.get (_ref_dict (ProcessXML caller_dir None)) k = None /\
    _CollectDependencies insertion_order (ProcessXML caller_dir None)
    = Raise (KeyError k).
Proof.
  assert (H : exists k,
             In k (Dict.keys (_dep_dict (ProcessXML caller_dir None))) /\
             Dict.get (_ref_dict (ProcessXML caller_dir None)) k = None).
  { exists "namespaceutil"%string. split; [simpl; auto | reflexivity]. }
  split; [exact H|].
  apply (_CollectDependencies_raises insertion_order
           (ProcessXML caller_dir None) H).
Defined.

(** ** [_GetDependencies] *)

(** X18: [_GetDependencies] raises [KeyError] for a key that is not a key
    of [_dep_dict], and for every other key the string it returns is the
    same for every order in which the set of targets is iterated. *)
Theorem _GetDependencies_order :
  forall (iter1 iter2 : PySet.t -> list PySet.elt) (g : Grapher)
         (refid : string),
    iteration_order iter1 ->
    iteration_order iter2 ->
    _GetDependencies iter1 g refid = _GetDependencies iter2 g refid /\
    (Dict.mem (_dep_dict g) refid = false ->
     _GetDependencies iter1 g refid = Raise (KeyError refid)).
Proof.
  intros iter1 iter2 g refid H1 H2. unfold _GetDependencies, subscript, Dict.mem.
  destruct (Dict.get (_dep_dict g) refid) as [targets|]; cbn [bind].
  - split; [|discriminate]. do 2 f_equal.
    apply SortedFacts.sorted_permutation.
    apply Permutation_map, Permutation_flat_map.
    rewrite (H1 targets). symmetry. apply H2.
  - split; reflexivity.
Qed.

Lemma _GetDependencies_order_witness :
  iteration_order insertion_order /\
  iteration_order (@rev PySet.elt) /\
  _GetDependencies insertion_order (ProcessXML two_types_dir None) "classFoo"
  = _GetDependencies (@rev PySet.elt) (ProcessXML two_types_dir None)
      "classFoo".
Proof.
  assert (H1 : iteration_order insertion_order)
    by (intros s; apply Permutation_refl).
  assert (H2 : iteration_order (@rev PySet.elt))
    by (intros s; symmetry; apply Permutation_rev).
  split; [exact H1|]. split; [exact H2|].
  apply (proj1 (_GetDependencies_order insertion_order (@rev PySet.elt)
                  (ProcessXML two_types_dir None) "classFoo" H1 H2)).
Defined.

(** ** The lines of the output file *)

Lemma length_flat_map_groups (groups : list Writer.Group) : forall i,
  length (flat_map (fun '(i, group) => _WriteGroup group i)
            (enumerate_from i groups))
  = list_sum (map (fun group => 9 + length (Writer.member_classes group))
                groups).
Proof.
  induction groups as [|group groups IH]; intros i; [reflexivity|].
  cbn [enumerate_from flat_map map]. rewrite length_app, IH.
  unfold _WriteGroup. rewrite !length_app. cbn [length].
  assert (H : forall l : list Writer.Class,
             length (flat_map (fun member => _WriteClass member "  ") l)
             = length l)
    by (induction l; simpl; congruence).
  rewrite H. unfold list_sum. cbn [fold_right].
  fold (list_sum
          (map (fun group0 => 9 + length (Writer.member_classes group0))
             groups)).
  lia.
Qed.

(** X19: [Writer.Write] writes four lines of header, for each group eight
    lines, one line for each member and a closing line, then one line for
    each ungrouped class, one for each entry of the dependencies, also one
    whose dependency labels are empty, and the closing line. *)
Theorem Write_lines_count :
  forall (groups : list Writer.Group) (classes : list Writer.Class)
         (dependencies : list Writer.Dependencies),
    length (Write_lines groups classes dependencies)
    = 4
      + list_sum (map (fun group => 9 + length (Writer.member_classes group))
                    groups)
      + length classes + length dependencies + 1.
Proof.
  intros groups classes dependencies. unfold Write_lines.
  rewrite !length_app, length_flat_map_groups.
  assert (Hc : length (flat_map (fun uclass => _WriteClass uclass "") classes)
               = length classes)
    by (induction classes; simpl; congruence).
  assert (Hd : length (flat_map _WriteDependencies dependencies)
               = length dependencies)
    by (induction dependencies; simpl; congruence).
  rewrite Hc, Hd. cbn [_WriteGraphHeader _WriteGraphFooter length]. lia.
Qed.
